(** * ZenohRpcClient: a verified model of the RPC bridge

    A shallow embedding of [lib/src/zenohRpcClient.cpp]: the lifecycle
    operations [init] and [term], the dispatcher [invokeMethod] and the reply
    collector [handleReply], with the properties of the written
    specification stated and proved over them.

    Calls into collaborators whose code lives elsewhere (the zenoh
    transport, the session manager, protobuf, the UUID factory, the URI
    serializer, the thread pool) are taken as parameters or as per-call
    outcomes; their effects are recorded as events in a trace. *)

From Stdlib Require Import ZArith List Bool Lia.
From Stdlib Require Import Strings.String Strings.Ascii Strings.Byte.
From Stdlib Require Import DecimalString.
Import ListNotations.

Local Open Scope string_scope.
Local Open Scope list_scope.
Local Open Scope Z_scope.

Set Implicit Arguments.

(** ** Data model of the protocol layer *)

Module UProtocol.

(** The status codes this file uses ([up-core-api/ustatus.pb.h]). *)
Inductive UCode := OK | INTERNAL | UNAVAILABLE.

Definition UCode_eqb (a b : UCode) : bool :=
  match a, b with
  | OK, OK | INTERNAL, INTERNAL | UNAVAILABLE, UNAVAILABLE => true
  | _, _ => false
  end.

Record UStatus := { code : UCode }.

(** [UStatus status;] a default status carries the zero code, [OK]. *)
Definition UStatus_default : UStatus := {| code := OK |}.

Definition set_code (c : UCode) (_ : UStatus) : UStatus := {| code := c |}.

(** Modelled from the spec: the priority classes, declared in the schema
    header [up-core-api/uattributes.pb.h] which is not part of the sources.
    The spec says they are totally ordered with a high-priority floor; the
    numbering is the one [>] compares in [invokeMethod]. *)
Inductive UPriority :=
| UPRIORITY_UNSPECIFIED
| UPRIORITY_CS0 | UPRIORITY_CS1 | UPRIORITY_CS2 | UPRIORITY_CS3
| UPRIORITY_CS4 | UPRIORITY_CS5 | UPRIORITY_CS6.

Definition UPriority_value (p : UPriority) : Z :=
  match p with
  | UPRIORITY_UNSPECIFIED => 0
  | UPRIORITY_CS0 => 1 | UPRIORITY_CS1 => 2 | UPRIORITY_CS2 => 3
  | UPRIORITY_CS3 => 4 | UPRIORITY_CS4 => 5 | UPRIORITY_CS5 => 6
  | UPRIORITY_CS6 => 7
  end.

Inductive UMessageType :=
| UMESSAGE_TYPE_UNSPECIFIED | UMESSAGE_TYPE_PUBLISH
| UMESSAGE_TYPE_REQUEST | UMESSAGE_TYPE_RESPONSE.

Record UUID := { msb : N; lsb : N }.

(** The metadata record, with the fields this file sets or reads. *)
Record UAttributes := {
  id : UUID;
  type : UMessageType;
  priority : UPriority;
  ttl : option Z
}.

Inductive UPayloadType := VALUE | REFERENCE | SHARED | UNDEFINED.

Record UPayload := { data : list byte; payloadType : UPayloadType }.

(** [UPayload(data, size, type)] *)
Definition UPayload_new (d : list byte) (t : UPayloadType) : UPayload :=
  {| data := d; payloadType := t |}.

Definition UPayload_size (p : UPayload) : nat := List.length (data p).

(** A message; a field that was never set is [None], so that the
    default-constructed message is the one with both fields unset. *)
Record UMessage := {
  payload : option UPayload;
  attributes : option UAttributes
}.

Definition UMessage_default : UMessage :=
  {| payload := None; attributes := None |}.

Definition setPayload (p : UPayload) (m : UMessage) : UMessage :=
  {| payload := Some p; attributes := attributes m |}.

Definition setAttributes (a : UAttributes) (m : UMessage) : UMessage :=
  {| payload := payload m; attributes := Some a |}.

Record CallOptions := {
  opt_priority : UPriority;
  opt_ttl : option Z
}.

Definition has_ttl (o : CallOptions) : bool :=
  match opt_ttl o with Some _ => true | None => false end.

(** [UAttributesBuilder]: constructor, setters and [build]. *)
Definition UAttributesBuilder (u : UUID) (t : UMessageType) (p : UPriority)
  : UAttributes :=
  {| id := u; type := t; priority := p; ttl := None |}.

Definition setTTL (t : Z) (b : UAttributes) : UAttributes :=
  {| id := id b; type := type b; priority := priority b; ttl := Some t |}.

Definition setPriority (p : UPriority) (b : UAttributes) : UAttributes :=
  {| id := id b; type := type b; priority := p; ttl := ttl b |}.

End UProtocol.

(** ** The transport layer as this file sees it *)

Module Zenoh.

(** A byte slice [z_bytes_t]: [None] is the null slice (no start address,
    length 0); [Some l] has a start address and length [length l]. *)
Definition z_bytes_t := option (list byte).

Definition z_bytes_len (b : z_bytes_t) : nat :=
  match b with Some l => List.length l | None => 0%nat end.

Definition z_bytes_is_null (b : z_bytes_t) : bool :=
  match b with Some _ => false | None => true end.

(** The [len] bytes at [start]. *)
Definition z_bytes_data (b : z_bytes_t) : list byte :=
  match b with Some l => l | None => [] end.

(** [len == 0 || start == nullptr] *)
Definition z_bytes_empty (b : z_bytes_t) : bool :=
  Nat.eqb (z_bytes_len b) 0 || z_bytes_is_null b.

(** An attachment is a sequence of key/value entries, or absent. *)
Definition z_attachment_t := option (list (string * list byte)).

Definition z_attachment_check (a : z_attachment_t) : bool :=
  match a with Some _ => true | None => false end.

Fixpoint entries_get (es : list (string * list byte)) (key : string)
  : z_bytes_t :=
  match es with
  | [] => None
  | (k, v) :: rest => if String.eqb k key then Some v else entries_get rest key
  end.

(** [z_attachment_get]: the value of the first entry with that key, the
    null slice when there is none. *)
Definition z_attachment_get (a : z_attachment_t) (key : string) : z_bytes_t :=
  match a with
  | Some es => entries_get es key
  | None => None
  end.

Record z_sample_t := {
  sample_payload : z_bytes_t;
  sample_attachment : z_attachment_t
}.

(** A reply that passed [z_check]: a sample, or an error indication. *)
Inductive z_owned_reply_t :=
| reply_ok (sample : z_sample_t)
| reply_err.

Definition z_reply_is_ok (r : z_owned_reply_t) : bool :=
  match r with reply_ok _ => true | reply_err => false end.

(** A reply channel, seen from its consumer: the replies [recv] will hand
    over, in order, before it yields the null reply (the query is over:
    every reply arrived, or the timeout closed the channel). *)
Record z_owned_reply_channel_t := { fifo : list z_owned_reply_t }.

Record z_get_call := {
  get_keyexpr : string;
  get_parameters : string;
  get_payload : z_bytes_t;
  get_attachment : list (string * list byte);
  get_timeout_ms : Z
}.

End Zenoh.

Import UProtocol Zenoh.

(** ** Effects

    Every call that leaves this file is recorded, in program order. *)
Inductive Event :=
| EvSessionManagerInit
| EvSessionManagerTerm
| EvThreadPoolNew
| EvBytesMapNew
| EvBytesMapInsert (key : string) (value : list byte)
| EvBytesMapDrop
| EvChannelNew
| EvReplyFifoNew (bound : Z)
| EvGet (call : z_get_call)
| EvSubmit
| EvRecv
| EvReplyDrop
| EvChannelDrop
| EvChannelDelete.

Definition is_recv (e : Event) : bool :=
  match e with EvRecv => true | _ => false end.
Definition is_channel_drop (e : Event) : bool :=
  match e with EvChannelDrop => true | _ => false end.
Definition is_channel_delete (e : Event) : bool :=
  match e with EvChannelDelete => true | _ => false end.
Definition is_get (e : Event) : bool :=
  match e with EvGet _ => true | _ => false end.
Definition is_channel_create (e : Event) : bool :=
  match e with EvChannelNew | EvReplyFifoNew _ => true | _ => false end.
Definition is_session_term (e : Event) : bool :=
  match e with EvSessionManagerTerm => true | _ => false end.

Definition count (p : Event -> bool) (t : list Event) : nat :=
  List.length (List.filter p t).

(** The queries issued in a trace. *)
Fixpoint get_calls (t : list Event) : list z_get_call :=
  match t with
  | [] => []
  | EvGet c :: rest => c :: get_calls rest
  | _ :: rest => get_calls rest
  end.

(** ** The reply collector *)

Module ReplyCollector.

Section WithParser.

(** [UAttributes::ParseFromArray], generated from the schema. *)
Variable ParseFromArray : list byte -> option UAttributes.

(** What one turn of the [while] body does with the message. *)
Inductive Turn :=
| Break
| Continue (message : UMessage).

(** The body of the loop in [handleReply], for a reply that passed
    [z_check]. *)
Definition handleReply_body (reply : z_owned_reply_t) (message : UMessage)
  : Turn :=
  match reply with
  | reply_err => Break
  | reply_ok sample =>
      if z_bytes_empty (sample_payload sample) then Break
      else if negb (z_attachment_check (sample_attachment sample)) then Break
      else
        let serializedAttributes :=
          z_attachment_get (sample_attachment sample) "attributes" in
        if z_bytes_empty serializedAttributes then Break
        else
          match ParseFromArray (z_bytes_data serializedAttributes) with
          | None => Break
          | Some attrs =>
              let payload :=
                UPayload_new (z_bytes_data (sample_payload sample)) VALUE in
              Continue (setAttributes attrs (setPayload payload message))
          end
  end.

(** [while (z_call(channel->recv, &reply), z_check(reply)) { ... }] over
    the replies still to come. *)
Fixpoint handleReply_loop (pending : list z_owned_reply_t)
  (message : UMessage) : UMessage * list Event :=
  match pending with
  | [] => (message, [EvRecv])
  | reply :: rest =>
      match handleReply_body reply message with
      | Break => (message, [EvRecv])
      | Continue message' =>
          let (m, t) := handleReply_loop rest message' in
          (m, EvRecv :: EvReplyDrop :: t)
      end
  end.

Definition handleReply (channel : z_owned_reply_channel_t)
  : UMessage * list Event :=
  let (message, t) := handleReply_loop (fifo channel) UMessage_default in
  (message, t ++ [EvChannelDrop; EvChannelDelete]).

End WithParser.

End ReplyCollector.

(** ** The atomic reference counter

    [refCount_] is a member declared in the class header, which is not part
    of the sources; this file only shows that it is an atomic integer
    ([fetch_add], [fetch_sub], comparison with 0). Its representation is a
    parameter: an unsigned or a signed 32-bit atomic, both of which wrap. *)

Module Atomic.

Inductive repr := uint32 | int32.

Definition wrap (r : repr) (z : Z) : Z :=
  match r with
  | uint32 => z mod 2 ^ 32
  | int32 => (z + 2 ^ 31) mod 2 ^ 32 - 2 ^ 31
  end.

Definition max_value (r : repr) : Z :=
  match r with
  | uint32 => 2 ^ 32 - 1
  | int32 => 2 ^ 31 - 1
  end.

(** The value stored after [fetch_add(n)] and [fetch_sub(n)]. *)
Definition fetch_add (r : repr) (v n : Z) : Z := wrap r (v + n).
Definition fetch_sub (r : repr) (v n : Z) : Z := wrap r (v - n).

End Atomic.

(** ** The client: lifecycle and dispatch *)

Module Client.

(** Opaque handles. *)
Definition z_session_t := nat.

Record ThreadPool := { pool_queueSize : nat; pool_workers : nat }.

(** The members of the singleton. A member that was never assigned is
    [None] (for [threadPool_], the null pointer). *)
Record ZenohRpcClient := {
  refCount_ : Z;
  session_ : option z_session_t;
  threadPool_ : option ThreadPool
}.

(** The singleton before any call. *)
Definition instance : ZenohRpcClient :=
  {| refCount_ := 0; session_ := None; threadPool_ := None |}.

(** What the collaborators answer during one call of [init]. *)
Record InitWorld := {
  sessionManager_init : UCode;
  sessionManager_getSession : option z_session_t;
  make_shared_ThreadPool : bool
}.

(** A default-constructed [std::future] has no shared state; the one
    [submit] returns resolves to what the task returns. *)
Inductive std_future :=
| future_no_state
| future_of_task (channel : z_owned_reply_channel_t).

(** How a future with a shared state resolves. *)
Inductive Resolution :=
| resolved_value (m : UMessage)
| resolved_exception.

(** What the collaborators answer during one call of [invokeMethod]. *)
Record InvokeWorld := {
  Uuidv8Factory_create : UUID;
  z_get_result : Z;
  replies_delivered : list z_owned_reply_t
}.

(** The three components of what a lifecycle operation yields. *)
Definition status_of {A B C} (x : A * B * C) : A := fst (fst x).
Definition self_of {A B C} (x : A * B * C) : B := snd (fst x).
Definition trace_of {A B C} (x : A * B * C) : C := snd x.

(** [std::to_string] of a [size_t]. *)
Definition std_to_string (n : N) : string :=
  NilZero.string_of_uint (N.to_uint n).

Section WithCollaborators.

Variable R : Atomic.repr.

(** Constants of the class header. *)
Variable queueSize_ : nat.
Variable maxNumOfCuncurrentRequests_ : nat.
Variable requestTimeoutMs_ : Z.

(** The resource identifier and what [up-cpp] offers on it. *)
Variable UUri : Type.
Variable UResource : Type.
Variable resource : UUri -> UResource.
Variable isRPCMethod : UResource -> bool.
Variable LongUriSerializer_serialize : UUri -> string.

(** [std::hash<std::string>]. *)
Variable std_hash : string -> N.

(** [UAttributes::SerializeToArray] and [ParseFromArray]. *)
Variable SerializeToArray : UAttributes -> option (list byte).
Variable ParseFromArray : list byte -> option UAttributes.

Definition with_refCount (v : Z) (self : ZenohRpcClient) : ZenohRpcClient :=
  {| refCount_ := v; session_ := session_ self;
     threadPool_ := threadPool_ self |}.

Definition with_session (s : z_session_t) (self : ZenohRpcClient)
  : ZenohRpcClient :=
  {| refCount_ := refCount_ self; session_ := Some s;
     threadPool_ := threadPool_ self |}.

Definition with_threadPool (p : option ThreadPool) (self : ZenohRpcClient)
  : ZenohRpcClient :=
  {| refCount_ := refCount_ self; session_ := session_ self;
     threadPool_ := p |}.

Definition status (c : UCode) : UStatus := set_code c UStatus_default.

(** [ZenohRpcClient::init]: the status returned, the members afterwards,
    the calls made. *)
Definition init (w : InitWorld) (self : ZenohRpcClient)
  : UStatus * ZenohRpcClient * list Event :=
  if refCount_ self =? 0 then
    if refCount_ self =? 0 then
      if negb (UCode_eqb OK (sessionManager_init w)) then
        (status UNAVAILABLE, self, [EvSessionManagerInit])
      else
        match sessionManager_getSession w with
        | None => (status UNAVAILABLE, self, [EvSessionManagerInit])
        | Some s =>
            let self := with_session s self in
            if make_shared_ThreadPool w then
              let pool := {| pool_queueSize := queueSize_;
                             pool_workers := maxNumOfCuncurrentRequests_ |} in
              let self := with_threadPool (Some pool) self in
              (status OK,
               with_refCount (Atomic.fetch_add R (refCount_ self) 1) self,
               [EvSessionManagerInit; EvThreadPoolNew])
            else
              (status UNAVAILABLE, with_threadPool None self,
               [EvSessionManagerInit; EvThreadPoolNew])
        end
    else
      (status OK, with_refCount (Atomic.fetch_add R (refCount_ self) 1) self,
       [])
  else
    (status OK, with_refCount (Atomic.fetch_add R (refCount_ self) 1) self,
     []).

(** [ZenohRpcClient::term], given what [ZenohSessionManager::term] would
    answer. *)
Definition term (sessionManager_term : UCode) (self : ZenohRpcClient)
  : UStatus * ZenohRpcClient * list Event :=
  let self := with_refCount (Atomic.fetch_sub R (refCount_ self) 1) self in
  if refCount_ self =? 0 then
    if negb (UCode_eqb OK sessionManager_term) then
      (status UNAVAILABLE, self, [EvSessionManagerTerm])
    else
      (status OK, self, [EvSessionManagerTerm])
  else
    (status OK, self, []).

(** The request builder part of [invokeMethod]: the metadata record and
    the transport timeout. *)
Definition build_attributes (uuid : UUID) (options : CallOptions)
  : UAttributes * Z :=
  let builder :=
    UAttributesBuilder uuid UMESSAGE_TYPE_REQUEST UPRIORITY_CS0 in
  let (builder, timeout_ms) :=
    match opt_ttl options with
    | Some t => (setTTL t builder, t mod 2 ^ 64)
    | None => (builder, requestTimeoutMs_)
    end in
  (setPriority (opt_priority options) builder, timeout_ms).

(** [ZenohRpcClient::invokeMethod]: the future returned and the calls
    made; [None] when the call dereferences a null [threadPool_]. *)
Definition invokeMethod (w : InvokeWorld) (self : ZenohRpcClient)
  (topic : UUri) (payload : UPayload) (options : CallOptions)
  : option (std_future * list Event) :=
  if refCount_ self =? 0 then Some (future_no_state, [])
  else if negb (isRPCMethod (resource topic)) then Some (future_no_state, [])
  else if UPriority_value UPRIORITY_CS4 >? UPriority_value (opt_priority options)
  then Some (future_no_state, [])
  else
    let uriHash := std_hash (LongUriSerializer_serialize topic) in
    let uuid := Uuidv8Factory_create w in
    let (attributes, timeout_ms) := build_attributes uuid options in
    match SerializeToArray attributes with
    | None => Some (future_no_state, [EvBytesMapDrop])
    | Some serializedAttributes =>
        let opened :=
          [EvBytesMapNew; EvBytesMapInsert "attributes" serializedAttributes;
           EvChannelNew; EvReplyFifoNew 16] in
        let call :=
          {| get_keyexpr := std_to_string uriHash;
             get_parameters := EmptyString;
             get_payload :=
               if Nat.eqb (UPayload_size payload) 0 then None
               else Some (data payload);
             get_attachment := [("attributes", serializedAttributes)];
             get_timeout_ms := timeout_ms |} in
        if negb (z_get_result w =? 0) then
          Some (future_no_state,
                opened ++ [EvGet call; EvChannelDelete; EvBytesMapDrop])
        else
          match threadPool_ self with
          | None => None
          | Some _ =>
              Some (future_of_task {| fifo := replies_delivered w |},
                    opened ++ [EvGet call; EvSubmit; EvBytesMapDrop])
          end
    end.

(** What [get()] on the returned future yields: nothing for a future
    without shared state, otherwise what the submitted task returns. The
    task is [handleReply], which has no [throw]. *)
Definition future_get (f : std_future) : option Resolution :=
  match f with
  | future_no_state => None
  | future_of_task channel =>
      Some (resolved_value
              (fst (ReplyCollector.handleReply ParseFromArray channel)))
  end.

End WithCollaborators.

End Client.

(** ** The UUID factory *)

Module Uuidv8Factory.

(** Modelled from the spec: the state of the UUID factory of up-cpp,
    which is missing from the sources. The specification says of the
    factory: "Generates a fresh unique call id (time-ordered,
    collision-resistant)"; what it must remember for that is the last
    clock reading it used and a counter. *)
Record state := { last_time : N; last_count : N }.

(** Modelled from the spec: [Uuidv8Factory::create], missing from the
    sources. Time-ordered: an id carries the clock reading it was made
    at, in [msb]. Collision-resistant: ids made at the same reading, or at
    a reading that is not later than the last one used, are told apart by
    the counter, in [lsb]. *)
Definition create (now : N) (st : state) : UUID * state :=
  if (last_time st <? now)%N then
    ({| msb := now; lsb := 0 |}, {| last_time := now; last_count := 0 |})
  else
    ({| msb := last_time st; lsb := N.succ (last_count st) |},
     {| last_time := last_time st; last_count := N.succ (last_count st) |}).

(** The ids made by successive calls, one per clock reading. *)
Fixpoint ids (readings : list N) (st : state) : list UUID :=
  match readings with
  | [] => []
  | now :: rest => fst (create now st) :: ids rest (snd (create now st))
  end.

(** Made later: at a later reading, or at the same reading with a higher
    counter. *)
Definition later (t c : N) (u : UUID) : Prop :=
  (t < msb u)%N \/ (t = msb u /\ (c < lsb u)%N).

End Uuidv8Factory.

(** ** Vocabulary of the specification *)

Module Spec.

Import ReplyCollector Client.

Section Replies.

Variable ParseFromArray : list byte -> option UAttributes.

(** The metadata record attached to a reply, when it has one that
    deserializes. *)
Definition attached_metadata (r : z_owned_reply_t) : option UAttributes :=
  match r with
  | reply_ok s =>
      match z_attachment_get (sample_attachment s) "attributes" with
      | Some bytes => ParseFromArray bytes
      | None => None
      end
  | reply_err => None
  end.

Definition is_some {A} (o : option A) : bool :=
  match o with Some _ => true | None => false end.

(** A valid reply: no error indication, a non-empty payload, an attachment
    with a non-empty ["attributes"] entry, metadata that deserializes. *)
Definition valid_reply (r : z_owned_reply_t) : bool :=
  match r with
  | reply_err => false
  | reply_ok s =>
      negb (z_bytes_empty (sample_payload s))
      && z_attachment_check (sample_attachment s)
      && negb (z_bytes_empty
                 (z_attachment_get (sample_attachment s) "attributes"))
      && is_some (attached_metadata r)
  end.

(** The four ways a reply that is not an error can be malformed. *)
Inductive Malformed : z_owned_reply_t -> Prop :=
| empty_payload s :
    z_bytes_empty (sample_payload s) = true -> Malformed (reply_ok s)
| missing_attachment s :
    sample_attachment s = None -> Malformed (reply_ok s)
| missing_attributes_key s :
    z_bytes_empty (z_attachment_get (sample_attachment s) "attributes") = true ->
    Malformed (reply_ok s)
| metadata_parse_failure s bytes :
    z_attachment_get (sample_attachment s) "attributes" = Some bytes ->
    ParseFromArray bytes = None ->
    Malformed (reply_ok s).

(** The result message populated from a reply: its payload tagged as a
    value, and its metadata record. *)
Definition populated_from (r : z_owned_reply_t) : UMessage :=
  match r with
  | reply_ok s =>
      {| payload := Some (UPayload_new (z_bytes_data (sample_payload s)) VALUE);
         attributes := attached_metadata r |}
  | reply_err => UMessage_default
  end.

Fixpoint take_while {A} (p : A -> bool) (l : list A) : list A :=
  match l with
  | [] => []
  | x :: rest => if p x then x :: take_while p rest else []
  end.

(** The replies [handleReply] accepts: the valid ones up to the first
    reply that is not. *)
Definition accepted (pending : list z_owned_reply_t) : list z_owned_reply_t :=
  take_while valid_reply pending.

(** What a loop that accepted [n] replies did: a [recv] and a drop for
    each of them, and the [recv] that ended it. *)
Fixpoint loop_trace (n : nat) : list Event :=
  match n with
  | O => [EvRecv]
  | S k => EvRecv :: EvReplyDrop :: loop_trace k
  end.

(** The specification's reading of the loop: whatever comes before and
    after it, the first valid reply of the channel ends the loop (one
    [recv] per entry up to it, none after) and is the one returned. *)
Definition spec_stops_at_first_valid : Prop :=
  forall before r rest,
    forallb (fun x => negb (valid_reply x)) before = true ->
    valid_reply r = true ->
    let out := handleReply ParseFromArray {| fifo := before ++ r :: rest |} in
    fst out = populated_from r /\
    count is_recv (snd out) = S (List.length before).

(** The specification's reading of a malformed entry: wherever it comes
    in the channel, the call resolves to the default message. *)
Definition spec_malformed_resolves_empty : Prop :=
  forall before r rest,
    Malformed r ->
    fst (handleReply ParseFromArray {| fifo := before ++ r :: rest |})
    = UMessage_default.

End Replies.

Section Lifecycle.

Variable R : Atomic.repr.
Variable queueSize_ maxNumOfCuncurrentRequests_ : nat.

(** A lifecycle call, with what the session manager and the allocator
    answer during it. *)
Inductive Call :=
| call_init (w : InitWorld)
| call_term (sessionManager_term : UCode).

Definition step (c : Call) (self : ZenohRpcClient)
  : UStatus * ZenohRpcClient * list Event :=
  match c with
  | call_init w => init R queueSize_ maxNumOfCuncurrentRequests_ w self
  | call_term a => term R a self
  end.

(** A sequence of lifecycle calls, one after the other: the members
    afterwards and the calls made. *)
Fixpoint run (cs : list Call) (self : ZenohRpcClient)
  : ZenohRpcClient * list Event :=
  match cs with
  | [] => (self, [])
  | c :: rest =>
      let '(_, self', t) := step c self in
      let (self'', t') := run rest self' in
      (self'', t ++ t')
  end.

(** The collaborators let [init] through. *)
Definition init_succeeds (w : InitWorld) : bool :=
  UCode_eqb OK (sessionManager_init w)
  && is_some (sessionManager_getSession w)
  && make_shared_ThreadPool w.

Definition call_succeeds (c : Call) : bool :=
  match c with
  | call_init w => init_succeeds w
  | call_term _ => true
  end.

(** The client counts as initialized when [invokeMethod] gets past its
    first test. *)
Definition initialized (self : ZenohRpcClient) : bool :=
  negb (refCount_ self =? 0).

(** The specification's reading of the last release: the session manager
    is terminated and the executor is gone. *)
Definition spec_last_term_tears_both_down : Prop :=
  forall a self,
    refCount_ (self_of (step (call_term a) self)) = 0 ->
    count is_session_term (trace_of (step (call_term a) self)) = 1%nat /\
    threadPool_ (self_of (step (call_term a) self)) = None.

(** The specification's reading of the count under a release: it never
    grows and never passes below 0, so that from 0 it stays at 0. *)
Definition spec_term_never_below_zero : Prop :=
  forall a self,
    0 <= refCount_ self ->
    0 <= refCount_ (self_of (step (call_term a) self)) <= refCount_ self.

End Lifecycle.

End Spec.

(** ** Sample collaborators, for the worked examples *)

Module Sample.

(** A parser that accepts one-byte records and keeps the byte in the id. *)
Definition parse (bs : list byte) : option UAttributes :=
  match bs with
  | [b] =>
      Some {| id := {| msb := Byte.to_N b; lsb := 0 |};
              type := UMESSAGE_TYPE_RESPONSE;
              priority := UPRIORITY_CS4;
              ttl := None |}
  | _ => None
  end.

(** A serializer that writes the low byte of the id. *)
Definition serialize_attributes (a : UAttributes) : option (list byte) :=
  match Byte.of_N (N.modulo (msb (id a)) 256) with
  | Some b => Some [b]
  | None => None
  end.

Definition reply (body meta : byte) : z_owned_reply_t :=
  reply_ok {| sample_payload := Some [body];
              sample_attachment := Some [("attributes", [meta])] |}.

Definition reply_without_attachment (body : byte) : z_owned_reply_t :=
  reply_ok {| sample_payload := Some [body]; sample_attachment := None |}.

Definition init_world : Client.InitWorld :=
  {| Client.sessionManager_init := OK;
     Client.sessionManager_getSession := Some 7%nat;
     Client.make_shared_ThreadPool := true |}.

Definition init_world_without_session : Client.InitWorld :=
  {| Client.sessionManager_init := UNAVAILABLE;
     Client.sessionManager_getSession := None;
     Client.make_shared_ThreadPool := true |}.

Definition invoke_world (n : N) : Client.InvokeWorld :=
  {| Client.Uuidv8Factory_create := {| msb := n; lsb := 0 |};
     Client.z_get_result := 0;
     Client.replies_delivered := [reply x01 x02] |}.

Definition options (p : UPriority) : CallOptions :=
  {| opt_priority := p; opt_ttl := None |}.

Definition hash (s : string) : N := N.of_nat (String.length s).

(** A client after one successful acquire. *)
Definition ready : Client.ZenohRpcClient :=
  {| Client.refCount_ := 1;
     Client.session_ := Some 7%nat;
     Client.threadPool_ :=
       Some {| Client.pool_queueSize := 20; Client.pool_workers := 2 |} |}.

(** A client released back to count 0 after one acquire: the members
    still hold the session and the pool of that acquire. *)
Definition ready_before : Client.ZenohRpcClient :=
  {| Client.refCount_ := 0;
     Client.session_ := Some 7%nat;
     Client.threadPool_ :=
       Some {| Client.pool_queueSize := 20; Client.pool_workers := 2 |} |}.

(** The dispatcher with sample collaborators: resources are strings,
    every resource is an RPC method, the serializer is the identity. *)
Definition invoke :=
  Client.invokeMethod 5000 (fun s : string => s) (fun _ : string => true)
    (fun s : string => s) hash serialize_attributes.

End Sample.

(** ** Further vocabulary: resource accounting and reachable states *)

Module Accounting.

Import ReplyCollector Client.

Definition is_submit (e : Event) : bool :=
  match e with EvSubmit => true | _ => false end.
Definition is_reply_drop (e : Event) : bool :=
  match e with EvReplyDrop => true | _ => false end.
Definition is_session_init (e : Event) : bool :=
  match e with EvSessionManagerInit => true | _ => false end.
Definition is_channel_new (e : Event) : bool :=
  match e with EvChannelNew => true | _ => false end.

(** 1 for [true], 0 for [false]. *)
Definition b2n (b : bool) : nat := if b then 1%nat else 0%nat.

Section Calls.

Variable ParseFromArray : list byte -> option UAttributes.

(** What the task behind a future does when the pool runs it. *)
Definition task_trace (f : std_future) : list Event :=
  match f with
  | future_no_state => []
  | future_of_task channel => snd (handleReply ParseFromArray channel)
  end.

(** Everything one call does: [invokeMethod] on the caller's thread, then
    the submitted task, if any. *)
Definition call_trace (r : std_future * list Event) : list Event :=
  snd r ++ task_trace (fst r).

End Calls.

Section Reachable.

Variable R : Atomic.repr.
Variable queueSize_ maxNumOfCuncurrentRequests_ : nat.

(** The count is in range and, while it is positive, the session and the
    pool are set. *)
Definition members_ready (self : ZenohRpcClient) : Prop :=
  0 <= refCount_ self <= Atomic.max_value R /\
  (0 < refCount_ self ->
   session_ self <> None /\ threadPool_ self <> None).

(** A sequence of lifecycle calls that never releases at count 0 and
    never acquires at the top of the counter's range. *)
Fixpoint guarded (cs : list Spec.Call) (self : ZenohRpcClient) : bool :=
  match cs with
  | [] => true
  | c :: rest =>
      match c with
      | Spec.call_init _ => refCount_ self <? Atomic.max_value R
      | Spec.call_term _ => 0 <? refCount_ self
      end
      && guarded rest
           (self_of (Spec.step R queueSize_ maxNumOfCuncurrentRequests_ c self))
  end.

(** How many of the acquires of a sequence returned OK, and how many
    releases it holds. *)
Fixpoint acquired (cs : list Spec.Call) (self : ZenohRpcClient) : Z :=
  match cs with
  | [] => 0
  | c :: rest =>
      let out := Spec.step R queueSize_ maxNumOfCuncurrentRequests_ c self in
      match c with
      | Spec.call_init _ =>
          if UCode_eqb OK (code (status_of out)) then 1 else 0
      | Spec.call_term _ => 0
      end
      + acquired rest (self_of out)
  end.

Fixpoint released (cs : list Spec.Call) : Z :=
  match cs with
  | [] => 0
  | Spec.call_init _ :: rest => released rest
  | Spec.call_term _ :: rest => 1 + released rest
  end.

End Reachable.

End Accounting.

(** ** Lifecycle calls on several threads

    [init] and [term] cut into the steps that other threads can come
    between: each access to the atomic counter, each call to a
    collaborator, taking the mutex. A [std::lock_guard] gives the mutex
    back when its block is left. *)

Module Threads.

Import Client.

(** Where a thread stands inside [init] or [term]. *)
Inductive Point :=
| at_init_test (w : InitWorld)             (* line 54 *)
| at_init_lock (w : InitWorld)             (* line 56 *)
| at_init_retest (w : InitWorld)           (* line 58 *)
| at_init_session_manager (w : InitWorld)  (* lines 62-66 *)
| at_init_session (w : InitWorld)          (* lines 68-73 *)
| at_init_pool (w : InitWorld)             (* lines 75-80 *)
| at_init_add_locked                       (* line 82 *)
| at_init_add                              (* line 85 *)
| at_term_lock (a : UCode)                 (* line 97 *)
| at_term_sub (a : UCode)                  (* line 99 *)
| at_term_test (a : UCode)                 (* line 101 *)
| at_term_session_manager (a : UCode)      (* lines 103-107 *)
| returned (st : UStatus).

(** What the threads share: the members of the singleton, who holds
    [mutex_], and the calls made to collaborators so far. *)
Record Shared := {
  members : ZenohRpcClient;
  holder : option nat;
  calls_made : list Event
}.

Definition with_members (f : ZenohRpcClient -> ZenohRpcClient) (s : Shared)
  : Shared :=
  {| members := f (members s); holder := holder s;
     calls_made := calls_made s |}.

Definition emit (e : Event) (s : Shared) : Shared :=
  {| members := members s; holder := holder s;
     calls_made := calls_made s ++ [e] |}.

Definition lock (me : nat) (s : Shared) : Shared :=
  {| members := members s; holder := Some me; calls_made := calls_made s |}.

Definition unlock (s : Shared) : Shared :=
  {| members := members s; holder := None; calls_made := calls_made s |}.

(** A thread: the call it is in, if any, the calls it has still to make
    and the statuses it got back. *)
Record Thread := {
  current : option Point;
  todo : list Spec.Call;
  statuses : list UStatus
}.

Definition thread (cs : list Spec.Call) : Thread :=
  {| current := None; todo := cs; statuses := [] |}.

Definition entry (c : Spec.Call) : Point :=
  match c with
  | Spec.call_init w => at_init_test w
  | Spec.call_term a => at_term_lock a
  end.

Section Steps.

Variable R : Atomic.repr.
Variable queueSize_ maxNumOfCuncurrentRequests_ : nat.

(** One step of thread [me] from point [p]. A thread that waits for the
    mutex stays where it is. *)
Definition advance (me : nat) (p : Point) (s : Shared) : Point * Shared :=
  match p with
  | at_init_test w =>
      if refCount_ (members s) =? 0 then (at_init_lock w, s)
      else (at_init_add, s)
  | at_init_lock w =>
      match holder s with
      | None => (at_init_retest w, lock me s)
      | Some _ => (p, s)
      end
  | at_init_retest w =>
      if refCount_ (members s) =? 0 then (at_init_session_manager w, s)
      else (at_init_add_locked, s)
  | at_init_session_manager w =>
      if negb (UCode_eqb OK (sessionManager_init w)) then
        (returned (status UNAVAILABLE), unlock (emit EvSessionManagerInit s))
      else (at_init_session w, emit EvSessionManagerInit s)
  | at_init_session w =>
      match sessionManager_getSession w with
      | Some x => (at_init_pool w, with_members (with_session x) s)
      | None => (returned (status UNAVAILABLE), unlock s)
      end
  | at_init_pool w =>
      if make_shared_ThreadPool w then
        let pool := {| pool_queueSize := queueSize_;
                       pool_workers := maxNumOfCuncurrentRequests_ |} in
        (at_init_add_locked,
         emit EvThreadPoolNew (with_members (with_threadPool (Some pool)) s))
      else
        (returned (status UNAVAILABLE),
         unlock (emit EvThreadPoolNew
                   (with_members (with_threadPool None) s)))
  | at_init_add_locked =>
      (returned (status OK),
       unlock (with_members
                 (fun m => with_refCount (Atomic.fetch_add R (refCount_ m) 1) m)
                 s))
  | at_init_add =>
      (returned (status OK),
       with_members
         (fun m => with_refCount (Atomic.fetch_add R (refCount_ m) 1) m) s)
  | at_term_lock a =>
      match holder s with
      | None => (at_term_sub a, lock me s)
      | Some _ => (p, s)
      end
  | at_term_sub a =>
      (at_term_test a,
       with_members
         (fun m => with_refCount (Atomic.fetch_sub R (refCount_ m) 1) m) s)
  | at_term_test a =>
      if refCount_ (members s) =? 0 then (at_term_session_manager a, s)
      else (returned (status OK), unlock s)
  | at_term_session_manager a =>
      if negb (UCode_eqb OK a) then
        (returned (status UNAVAILABLE), unlock (emit EvSessionManagerTerm s))
      else (returned (status OK), unlock (emit EvSessionManagerTerm s))
  | returned _ => (p, s)
  end.

(** Thread [me] is given the processor for one step: it goes on with the
    call it is in, or enters its next call. *)
Definition tick (me : nat) (th : Thread) (s : Shared) : Thread * Shared :=
  let next :=
    match current th with
    | Some p => Some (p, todo th)
    | None =>
        match todo th with
        | c :: rest => Some (entry c, rest)
        | [] => None
        end
    end in
  match next with
  | None => (th, s)
  | Some (p, rest) =>
      let (p', s') := advance me p s in
      match p' with
      | returned st =>
          ({| current := None; todo := rest;
              statuses := statuses th ++ [st] |}, s')
      | _ =>
          ({| current := Some p'; todo := rest; statuses := statuses th |},
           s')
      end
  end.

Fixpoint replace_nth {A} (n : nat) (x : A) (l : list A) : list A :=
  match l, n with
  | [], _ => []
  | _ :: rest, O => x :: rest
  | y :: rest, S k => y :: replace_nth k x rest
  end.

(** A schedule names, step after step, the thread that runs. *)
Fixpoint schedule (order : list nat) (ths : list Thread) (s : Shared)
  : list Thread * Shared :=
  match order with
  | [] => (ths, s)
  | me :: rest =>
      match nth_error ths me with
      | Some th =>
          let (th', s') := tick me th s in
          schedule rest (replace_nth me th' ths) s'
      | None => schedule rest ths s
      end
  end.

Definition start (self : ZenohRpcClient) : Shared :=
  {| members := self; holder := None; calls_made := [] |}.

(** Every thread has returned from its last call. *)
Definition finished (ths : list Thread) : bool :=
  forallb (fun th =>
             match current th, todo th with
             | None, [] => true
             | _, _ => false
             end) ths.

(** The specification's reading of "initialized", for calls made from
    several threads: once every call has returned, a count that is not 0
    means that the session manager was initialized and has not been
    terminated since. *)
Definition spec_initialized_means_session_up : Prop :=
  forall order ths,
    let out := schedule order ths (start instance) in
    finished (fst out) = true ->
    Spec.initialized (members (snd out)) = true ->
    (count is_session_term (calls_made (snd out))
     < count Accounting.is_session_init (calls_made (snd out)))%nat.

End Steps.

End Threads.

(** A parser for the examples that reads a request record back from the
    byte [Sample.serialize_attributes] writes. *)
Definition sample_parse_request (bs : list byte) : option UAttributes :=
  match bs with
  | [b] =>
      Some {| id := {| msb := Byte.to_N b; lsb := 0 |};
              type := UMESSAGE_TYPE_REQUEST;
              priority := UPRIORITY_CS4;
              ttl := None |}
  | _ => None
  end.

(** A world for the examples in which the transport takes the query of
    call number 1 and the reply carries the attachment of that request,
    [x01] under ["attributes"], with a payload of its own. *)
Definition sample_echo_world : Client.InvokeWorld :=
  {| Client.Uuidv8Factory_create := {| msb := 1; lsb := 0 |};
     Client.z_get_result := 0;
     Client.replies_delivered :=
       [reply_ok {| sample_payload := Some [x09];
                    sample_attachment := Some [("attributes", [x01])] |}] |}.

(** * Properties *)

Unset Implicit Arguments.

Import ReplyCollector Client Spec.

(** ** The reply collector *)

Section ReplyCollectorFacts.

Variable ParseFromArray : list byte -> option UAttributes.

Local Abbreviation body := (handleReply_body ParseFromArray).
Local Abbreviation loop := (handleReply_loop ParseFromArray).
Local Abbreviation valid := (valid_reply ParseFromArray).
Local Abbreviation populated := (populated_from ParseFromArray).

Lemma body_valid r m : valid r = true -> body r m = Continue (populated r).
Proof.
  destruct r as [s|]; simpl; [|discriminate].
  intros H.
  apply andb_prop in H as [H Hmeta].
  apply andb_prop in H as [H Hkey].
  apply andb_prop in H as [Hpay Hatt].
  apply negb_true_iff in Hpay. apply negb_true_iff in Hkey.
  rewrite Hpay, Hatt, Hkey. simpl.
  destruct (z_attachment_get (sample_attachment s) "attributes") as [bytes|];
    [|discriminate].
  simpl. destruct (ParseFromArray bytes); [reflexivity|discriminate].
Qed.

Lemma body_invalid r m : valid r = false -> body r m = Break.
Proof.
  destruct r as [s|]; simpl; [|reflexivity].
  destruct (z_bytes_empty (sample_payload s)); [reflexivity|].
  destruct (z_attachment_check (sample_attachment s)); [|reflexivity].
  simpl.
  destruct (z_attachment_get (sample_attachment s) "attributes") as [bytes|] eqn:E;
    [|reflexivity].
  destruct (z_bytes_empty (Some bytes)); [reflexivity|].
  simpl. destruct (ParseFromArray bytes); [discriminate|reflexivity].
Qed.

Lemma malformed_invalid r : Malformed ParseFromArray r -> valid r = false.
Proof.
  intros [s H|s H|s H|s bytes H1 H2]; simpl.
  - now rewrite H.
  - rewrite H. simpl. now rewrite andb_false_r.
  - rewrite H. simpl. now rewrite andb_false_r.
  - rewrite H1, H2. simpl. now rewrite andb_false_r.
Qed.

(** A reply is rejected exactly when it is a transport error or
    malformed in one of the four ways. *)
Lemma invalid_error_or_malformed r :
  valid r = false <-> r = reply_err \/ Malformed ParseFromArray r.
Proof.
  split.
  - destruct r as [s|]; [|now left]. intros H. right. cbn in H.
    destruct (z_bytes_empty (sample_payload s)) eqn:Epay;
      [now apply empty_payload|].
    destruct (sample_attachment s) as [es|] eqn:Eatt;
      [|now apply missing_attachment].
    cbn in H.
    destruct (z_bytes_empty (entries_get es "attributes")) eqn:Ekey.
    + apply missing_attributes_key. now rewrite Eatt.
    + cbn in H. destruct (entries_get es "attributes") as [bytes|] eqn:Eget;
        [|discriminate].
      apply metadata_parse_failure with (bytes := bytes); [now rewrite Eatt|].
      destruct (ParseFromArray bytes); [discriminate|reflexivity].
  - intros [->|H]; [reflexivity|now apply malformed_invalid].
Qed.

Lemma last_cons {A} (l : list A) : forall x d, last (x :: l) d = last l x.
Proof.
  induction l as [|y l IH]; intros x d; [reflexivity|].
  change (last (x :: y :: l) d) with (last (y :: l) d).
  now rewrite !IH.
Qed.

Lemma last_app_cons {A} (l1 l2 : list A) x :
  forall d, last (l1 ++ x :: l2) d = last l2 x.
Proof.
  induction l1 as [|y l1 IH]; intros d; cbn [app].
  - apply last_cons.
  - rewrite last_cons. apply IH.
Qed.

Lemma loop_accepted pending : forall m,
  loop pending m =
  (last (map populated (accepted ParseFromArray pending)) m,
   loop_trace (List.length (accepted ParseFromArray pending))).
Proof.
  induction pending as [|r rest IH]; intros m; [reflexivity|].
  unfold accepted in *. cbn [handleReply_loop take_while].
  destruct (valid r) eqn:V.
  - rewrite (body_valid _ _ V), IH. cbn [map List.length loop_trace].
    now rewrite last_cons.
  - rewrite (body_invalid _ _ V). reflexivity.
Qed.

Lemma count_recv_loop_trace n : count is_recv (loop_trace n) = S n.
Proof. induction n; cbn in *; [reflexivity|]. unfold count in IHn. now rewrite IHn. Qed.

Lemma count_app p t1 t2 : count p (t1 ++ t2) = (count p t1 + count p t2)%nat.
Proof. unfold count. now rewrite filter_app, length_app. Qed.

Lemma loop_trace_no_release n :
  count is_channel_drop (loop_trace n) = 0%nat /\
  count is_channel_delete (loop_trace n) = 0%nat.
Proof. induction n; cbn; [split; reflexivity|exact IHn]. Qed.

Lemma handleReply_accepted channel :
  handleReply ParseFromArray channel =
  (last (map populated (accepted ParseFromArray (fifo channel))) UMessage_default,
   loop_trace (List.length (accepted ParseFromArray (fifo channel)))
     ++ [EvChannelDrop; EvChannelDelete]).
Proof. unfold handleReply. now rewrite loop_accepted. Qed.

Lemma accepted_app_valid before tail :
  forallb valid before = true ->
  accepted ParseFromArray (before ++ tail) =
  before ++ accepted ParseFromArray tail.
Proof.
  unfold accepted. induction before as [|x xs IH]; intros H; [reflexivity|].
  cbn in *. apply andb_prop in H as [Hx Hxs]. rewrite Hx. f_equal. auto.
Qed.


(** Rewrites a run of [handleReply] on [before ++ tail], [before] being
    valid replies, down to the first entries of [tail]. *)
Ltac run_accepted Hbefore :=
  rewrite handleReply_accepted; cbn [fst snd fifo];
  rewrite accepted_app_valid by exact Hbefore;
  unfold accepted; cbn [take_while].

(** C4. [handleReply] releases the reply channel before it returns,
    whatever the channel delivered: on every outcome (a populated message,
    an empty one after an error or a malformed entry, an empty one after
    exhaustion) the channel is dropped exactly once and deleted exactly
    once, and these two are the last things the function does. *)
Theorem handleReply_releases_channel_once channel :
  let t := snd (handleReply ParseFromArray channel) in
  count is_channel_drop t = 1%nat /\
  count is_channel_delete t = 1%nat /\
  exists t0, t = t0 ++ [EvChannelDrop; EvChannelDelete].
Proof.
  cbv zeta. rewrite handleReply_accepted. cbn [snd].
  set (n := List.length _).
  destruct (loop_trace_no_release n) as [Hdrop Hdel].
  rewrite !count_app, Hdrop, Hdel.
  repeat split; eauto.
Qed.

(** C1 (as amended). [handleReply] goes on consuming entries after a valid
    reply: it consumes the valid replies up to the first entry that is not
    one (a transport error or a malformed entry) or up to exhaustion, with
    one more [recv] for the entry or the null reply that ends the loop, and
    returns the message populated from the last valid reply consumed, the
    default message when there is none. *)
Theorem handleReply_runs_to_first_invalid channel :
  let out := handleReply ParseFromArray channel in
  let taken := accepted ParseFromArray (fifo channel) in
  fst out = last (map populated taken) UMessage_default /\
  count is_recv (snd out) = S (List.length taken).
Proof.
  cbv zeta. rewrite handleReply_accepted. cbn [fst snd]. split; [reflexivity|].
  rewrite count_app, count_recv_loop_trace. cbn. lia.
Qed.

(** C10. Once a valid reply [v] was accepted (after any number of valid
    replies), an entry [e] that is a transport error or malformed ends the
    loop and the message populated from [v] is returned as it is; when the
    valid replies are all the channel delivers, the last of them is the one
    returned: each valid reply overwrites the message. *)
Theorem later_entries_keep_or_overwrite before v :
  forallb valid before = true ->
  valid v = true ->
  (forall e rest,
     valid e = false ->
     let out :=
       handleReply ParseFromArray {| fifo := before ++ v :: e :: rest |} in
     fst out = populated v /\
     count is_recv (snd out) = S (S (List.length before))) /\
  (forall v',
     valid v' = true ->
     fst (handleReply ParseFromArray {| fifo := before ++ [v; v'] |})
     = populated v') /\
  fst (handleReply ParseFromArray {| fifo := before ++ [v] |}) = populated v.
Proof.
  intros Hb Hv.
  assert (Hlast : forall l, last (map populated (before ++ v :: l)) UMessage_default
                            = last (map populated l) (populated v)).
  { intros l. rewrite map_app. cbn [map]. apply last_app_cons. }
  repeat split.
  - run_accepted Hb. rewrite Hv, H. apply (Hlast []).
  - run_accepted Hb. rewrite Hv, H.
    rewrite count_app, count_recv_loop_trace, length_app. cbn. lia.
  - intros v' Hv'. run_accepted Hb. rewrite Hv, Hv'.
    rewrite (Hlast [v']). reflexivity.
  - run_accepted Hb. rewrite Hv. apply (Hlast []).
Qed.

(** C5 (as amended). A malformed reply entry (empty payload, no
    attachment, no ["attributes"] entry, or metadata that does not
    deserialize) ends the loop without touching the message and without
    raising: the future resolves with a value, never with an exception,
    and that value is the default message whenever no earlier entry of the
    same call was accepted. *)
Theorem malformed_reply_ends_quietly r rest :
  Malformed ParseFromArray r ->
  (forall m, loop (r :: rest) m = (m, [EvRecv])) /\
  handleReply ParseFromArray {| fifo := r :: rest |}
  = (UMessage_default, [EvRecv; EvChannelDrop; EvChannelDelete]) /\
  future_get ParseFromArray (future_of_task {| fifo := r :: rest |})
  = Some (resolved_value UMessage_default) /\
  (forall before,
     exists m,
       future_get ParseFromArray
         (future_of_task {| fifo := before ++ r :: rest |})
       = Some (resolved_value m)).
Proof.
  intros Hm. apply malformed_invalid in Hm.
  assert (Hloop : forall m, loop (r :: rest) m = (m, [EvRecv])).
  { intros m. cbn [handleReply_loop]. now rewrite (body_invalid _ _ Hm). }
  repeat split.
  - exact Hloop.
  - unfold handleReply. cbn [fifo]. now rewrite Hloop.
  - unfold future_get, handleReply. cbn [fifo]. now rewrite Hloop.
  - intros before. eexists. reflexivity.
Qed.

End ReplyCollectorFacts.

(** Worked examples for the reply collector. *)

Lemma later_entries_keep_or_overwrite_witness :
  fst (handleReply Sample.parse
         {| fifo := [Sample.reply x01 x02; reply_err; Sample.reply x03 x04] |})
  = populated_from Sample.parse (Sample.reply x01 x02).
Proof.
  destruct (later_entries_keep_or_overwrite Sample.parse []
              (Sample.reply x01 x02) eq_refl eq_refl) as [H _].
  exact (proj1 (H reply_err [Sample.reply x03 x04] eq_refl)).
Defined.

Lemma malformed_reply_ends_quietly_witness :
  handleReply Sample.parse
    {| fifo := [Sample.reply_without_attachment x01; Sample.reply x03 x04] |}
  = (UMessage_default, [EvRecv; EvChannelDrop; EvChannelDelete]).
Proof.
  refine (proj1 (proj2 (malformed_reply_ends_quietly Sample.parse
                          (Sample.reply_without_attachment x01)
                          [Sample.reply x03 x04] _))).
  apply missing_attachment. reflexivity.
Defined.

(** C1, as stated, fails: with two valid replies in the channel the second
    one is consumed too (three [recv] calls in all) and it is the second
    that is returned. *)
Lemma first_valid_reply_does_not_stop :
  ~ spec_stops_at_first_valid Sample.parse.
Proof.
  intros H.
  specialize (H [] (Sample.reply x01 x02) [Sample.reply x03 x04]
                eq_refl eq_refl).
  destruct H as [H _]. vm_compute in H. discriminate H.
Qed.

(** C5, as stated, fails: a reply without attachment that follows a valid
    reply resolves the call to the message of the valid reply, not to the
    default message. *)
Lemma malformed_after_valid_is_not_empty :
  ~ spec_malformed_resolves_empty Sample.parse.
Proof.
  intros H.
  specialize (H [Sample.reply x01 x02] (Sample.reply_without_attachment x03) []
                (missing_attachment Sample.parse
                   {| sample_payload := Some [x03]; sample_attachment := None |}
                   eq_refl)).
  vm_compute in H. discriminate H.
Qed.

(** ** The lifecycle *)

Section LifecycleFacts.

Variable R : Atomic.repr.
Variable queueSize_ maxNumOfCuncurrentRequests_ : nat.

Local Abbreviation init_ := (init R queueSize_ maxNumOfCuncurrentRequests_).
Local Abbreviation step_ := (step R queueSize_ maxNumOfCuncurrentRequests_).
Local Abbreviation run_ := (run R queueSize_ maxNumOfCuncurrentRequests_).
Local Abbreviation top := (Atomic.max_value R).

Lemma wrap_small z : 0 <= z <= top -> Atomic.wrap R z = z.
Proof.
  destruct R; unfold Atomic.wrap, Atomic.max_value;
    change (2 ^ 32) with 4294967296; change (2 ^ 31) with 2147483648;
    intros H.
  - apply Z.mod_small. lia.
  - rewrite Z.mod_small; lia.
Qed.

Lemma init_at_zero w self :
  refCount_ self = 0 ->
  init_succeeds w = true ->
  refCount_ (self_of (init_ w self)) = 1 /\
  count is_session_term (trace_of (init_ w self)) = 0%nat.
Proof.
  intros H0 Hw. unfold init_succeeds in Hw.
  apply andb_prop in Hw as [Hw Hpool]. apply andb_prop in Hw as [Hsm Hsess].
  unfold init. rewrite H0. cbn [Z.eqb]. rewrite Hsm. cbn [negb].
  destruct (sessionManager_getSession w); [|discriminate].
  rewrite Hpool. cbn. rewrite H0. split; [|reflexivity].
  unfold Atomic.fetch_add. apply wrap_small. destruct R; cbn; lia.
Qed.

Lemma init_above_zero w self :
  0 < refCount_ self < top ->
  init_ w self =
  (status OK, with_refCount (refCount_ self + 1) self, []).
Proof.
  intros H. unfold init.
  destruct (Z.eqb_spec (refCount_ self) 0); [lia|].
  unfold Atomic.fetch_add. now rewrite wrap_small by lia.
Qed.

Lemma step_init_count w self :
  0 <= refCount_ self < top ->
  init_succeeds w = true ->
  refCount_ (self_of (step_ (call_init w) self)) = refCount_ self + 1 /\
  count is_session_term (trace_of (step_ (call_init w) self)) = 0%nat.
Proof.
  intros H Hw. cbn [step].
  destruct (Z.eq_dec (refCount_ self) 0) as [E|E].
  - rewrite E. now apply init_at_zero.
  - rewrite init_above_zero by lia. split; reflexivity.
Qed.

Lemma term_count a self :
  1 <= refCount_ self <= top ->
  refCount_ (self_of (term R a self)) = refCount_ self - 1 /\
  session_ (self_of (term R a self)) = session_ self /\
  threadPool_ (self_of (term R a self)) = threadPool_ self /\
  trace_of (term R a self) =
  if refCount_ self =? 1 then [EvSessionManagerTerm] else [].
Proof.
  intros H. unfold term, Atomic.fetch_sub. cbn [refCount_ with_refCount].
  rewrite wrap_small by lia.
  destruct (Z.eqb_spec (refCount_ self - 1) 0) as [E|E];
    destruct (Z.eqb_spec (refCount_ self) 1); try lia;
    destruct (negb (UCode_eqb OK a)); cbn; repeat split; lia.
Qed.

Lemma run_app cs1 cs2 self :
  run_ (cs1 ++ cs2) self =
  (fst (run_ cs2 (fst (run_ cs1 self))),
   snd (run_ cs1 self) ++ snd (run_ cs2 (fst (run_ cs1 self)))).
Proof.
  revert self. induction cs1 as [|c cs1 IH]; intros self; cbn [app run].
  - cbn [fst snd app]. now destruct (run_ cs2 self).
  - destruct (step_ c self) as [[st self'] t]. rewrite IH.
    destruct (run_ cs1 self') as [s1 t1]. cbn [fst snd].
    now rewrite app_assoc.
Qed.

Lemma run_cons c cs self :
  run_ (c :: cs) self =
  (fst (run_ cs (self_of (step_ c self))),
   trace_of (step_ c self) ++ snd (run_ cs (self_of (step_ c self)))).
Proof.
  cbn [run]. destruct (step_ c self) as [[st self'] t].
  unfold self_of, trace_of. cbn [fst snd]. now destruct (run_ cs self').
Qed.


(** C8 (as amended). The release that brings the count to 0 terminates
    the session manager, once, and reports its failure as [UNAVAILABLE];
    it leaves the executor in place: [threadPool_] still holds the pool
    created by the first acquire. *)
Theorem last_term_terminates_session_only a self :
  refCount_ (self_of (term R a self)) = 0 ->
  trace_of (term R a self) = [EvSessionManagerTerm] /\
  threadPool_ (self_of (term R a self)) = threadPool_ self /\
  session_ (self_of (term R a self)) = session_ self /\
  code (status_of (term R a self)) = (if UCode_eqb OK a then OK else UNAVAILABLE).
Proof.
  unfold term. cbn [refCount_ with_refCount].
  destruct (Atomic.fetch_sub R (refCount_ self) 1 =? 0) eqn:E.
  - intros _. destruct (UCode_eqb OK a); cbn; repeat split.
  - cbn. intros H. rewrite H in E. discriminate.
Qed.

End LifecycleFacts.

(** Worked examples for the lifecycle. *)


Lemma last_term_terminates_session_only_witness :
  let self := self_of (init Atomic.uint32 20 2 Sample.init_world instance) in
  trace_of (term Atomic.uint32 OK self) = [EvSessionManagerTerm] /\
  threadPool_ (self_of (term Atomic.uint32 OK self)) = threadPool_ self.
Proof.
  cbv zeta.
  destruct (last_term_terminates_session_only Atomic.uint32 OK
              (self_of (init Atomic.uint32 20 2 Sample.init_world instance))
              eq_refl)
    as (H1 & H2 & _).
  split; [exact H1|exact H2].
Defined.

(** C8, as stated, fails: after an acquire and the release that brings
    the count back to 0, [threadPool_] still holds the pool. *)
Lemma last_term_keeps_thread_pool :
  ~ spec_last_term_tears_both_down Atomic.uint32 20 2.
Proof.
  intros H.
  destruct (H OK (self_of (init Atomic.uint32 20 2 Sample.init_world instance))
              eq_refl)
    as [_ E].
  vm_compute in E. discriminate E.
Qed.

(** ** The UUID factory *)

Lemma create_later now st :
  Uuidv8Factory.later (Uuidv8Factory.last_time st)
    (Uuidv8Factory.last_count st) (fst (Uuidv8Factory.create now st)) /\
  Uuidv8Factory.last_time (snd (Uuidv8Factory.create now st))
  = msb (fst (Uuidv8Factory.create now st)) /\
  Uuidv8Factory.last_count (snd (Uuidv8Factory.create now st))
  = lsb (fst (Uuidv8Factory.create now st)).
Proof.
  unfold Uuidv8Factory.create, Uuidv8Factory.later.
  destruct (N.ltb_spec (Uuidv8Factory.last_time st) now); cbn.
  - repeat split. now left.
  - repeat split. right. split; [reflexivity|]. lia.
Qed.

Lemma later_trans t c u v :
  Uuidv8Factory.later t c u ->
  Uuidv8Factory.later (msb u) (lsb u) v ->
  Uuidv8Factory.later t c v.
Proof. unfold Uuidv8Factory.later. intros [H|[H1 H2]] [K|[K1 K2]]; lia. Qed.

(** Every id the factory makes is later than the last one it made. *)
Lemma ids_later readings : forall st u,
  In u (Uuidv8Factory.ids readings st) ->
  Uuidv8Factory.later (Uuidv8Factory.last_time st)
    (Uuidv8Factory.last_count st) u.
Proof.
  induction readings as [|now rest IH]; intros st u; cbn; [intros []|].
  destruct (create_later now st) as (L & T & C).
  intros [<-|I]; [exact L|].
  apply IH in I. rewrite T, C in I. exact (later_trans _ _ _ _ L I).
Qed.

Lemma ids_increase readings : forall st i j u v,
  (i < j)%nat ->
  nth_error (Uuidv8Factory.ids readings st) i = Some u ->
  nth_error (Uuidv8Factory.ids readings st) j = Some v ->
  Uuidv8Factory.later (msb u) (lsb u) v.
Proof.
  induction readings as [|now rest IH]; intros st i j u v Hij;
    [destruct i; discriminate|].
  destruct j as [|j]; [lia|]. cbn [Uuidv8Factory.ids].
  destruct i as [|i]; cbn [nth_error].
  - intros [= <-] Hv. apply nth_error_In in Hv. apply ids_later in Hv.
    destruct (create_later now st) as (_ & T & C). now rewrite T, C in Hv.
  - apply IH. lia.
Qed.

(** The factory never makes the same id twice. *)
Lemma ids_distinct readings st i j u v :
  i <> j ->
  nth_error (Uuidv8Factory.ids readings st) i = Some u ->
  nth_error (Uuidv8Factory.ids readings st) j = Some v ->
  u <> v.
Proof.
  intros Hij Hu Hv E. subst v.
  assert (L : Uuidv8Factory.later (msb u) (lsb u) u).
  { destruct (Nat.lt_total i j) as [H|[H|H]]; [|contradiction|].
    - exact (ids_increase readings st i j u u H Hu Hv).
    - exact (ids_increase readings st j i u u H Hv Hu). }
  unfold Uuidv8Factory.later in L. lia.
Qed.

(** ** The dispatcher *)

Section DispatcherFacts.

Variable requestTimeoutMs_ : Z.
Variable UUri : Type.
Variable UResource : Type.
Variable resource : UUri -> UResource.
Variable isRPCMethod : UResource -> bool.
Variable LongUriSerializer_serialize : UUri -> string.
Variable std_hash : string -> N.
Variable SerializeToArray : UAttributes -> option (list byte).
Variable ParseFromArray : list byte -> option UAttributes.

Local Abbreviation invoke :=
  (invokeMethod requestTimeoutMs_ resource isRPCMethod
     LongUriSerializer_serialize std_hash SerializeToArray).
Local Abbreviation build := (build_attributes requestTimeoutMs_).

Lemma build_attributes_fields uuid options :
  id (fst (build uuid options)) = uuid /\
  type (fst (build uuid options)) = UMESSAGE_TYPE_REQUEST /\
  priority (fst (build uuid options)) = opt_priority options /\
  ttl (fst (build uuid options)) = opt_ttl options.
Proof.
  unfold build_attributes. destruct (opt_ttl options); cbn; repeat split.
Qed.

(** Every query [invokeMethod] issues has the decimal hash of the
    serialized resource as its key and the serialized metadata record of
    this call as its only attachment entry. *)
Lemma invoke_get_inv w self topic payload options f t c :
  invoke w self topic payload options = Some (f, t) ->
  In c (get_calls t) ->
  get_keyexpr c = std_to_string (std_hash (LongUriSerializer_serialize topic)) /\
  exists bytes,
    SerializeToArray (fst (build (Uuidv8Factory_create w) options)) = Some bytes /\
    get_attachment c = [("attributes", bytes)].
Proof.
  unfold invokeMethod.
  destruct (refCount_ self =? 0); [intros [= <- <-] []|].
  destruct (negb (isRPCMethod (resource topic))); [intros [= <- <-] []|].
  destruct (_ >? _); [intros [= <- <-] []|].
  destruct (build _ options) as [attributes timeout_ms] eqn:B. cbn [fst].
  destruct (SerializeToArray attributes) as [bytes|] eqn:S;
    [|intros [= <- <-] []].
  destruct (negb (z_get_result w =? 0)).
  - intros [= <- <-]. cbn. intros [<-|[]]. cbn. eauto.
  - destruct (threadPool_ self); [|discriminate].
    intros [= <- <-]. cbn. intros [<-|[]]. cbn. eauto.
Qed.

(** With the preconditions met and the collaborators willing, the query
    is issued and the reply collector submitted. *)
Lemma invoke_dispatches w self topic payload options bytes pool :
  refCount_ self <> 0 ->
  isRPCMethod (resource topic) = true ->
  UPriority_value UPRIORITY_CS4 <= UPriority_value (opt_priority options) ->
  SerializeToArray (fst (build (Uuidv8Factory_create w) options)) = Some bytes ->
  z_get_result w = 0 ->
  threadPool_ self = Some pool ->
  exists t,
    invoke w self topic payload options
    = Some (future_of_task {| fifo := replies_delivered w |}, t) /\
    List.length (get_calls t) = 1%nat.
Proof.
  intros H0 Hrpc Hprio Hser Hget Hpool. unfold invokeMethod.
  destruct (Z.eqb_spec (refCount_ self) 0); [contradiction|].
  rewrite Hrpc. cbn [negb].
  destruct (Z.gtb_spec (UPriority_value UPRIORITY_CS4)
              (UPriority_value (opt_priority options))); [lia|].
  destruct (build _ options) as [attributes timeout_ms]. cbn [fst] in Hser.
  rewrite Hser, Hget, Hpool. cbn. eauto.
Qed.

(** C2. Whatever the client's state, the resource and the payload, a call
    whose priority is strictly below [UPRIORITY_CS4] returns at once: no
    call leaves the function (no [z_get], no reply channel created) and
    the future returned is the default-constructed one, without shared
    state. *)
Theorem low_priority_is_rejected w self topic payload options :
  UPriority_value (opt_priority options) < UPriority_value UPRIORITY_CS4 ->
  invoke w self topic payload options = Some (future_no_state, []) /\
  forall f t,
    invoke w self topic payload options = Some (f, t) ->
    count is_get t = 0%nat /\
    count is_channel_create t = 0%nat /\
    future_get ParseFromArray f = None.
Proof.
  intros Hprio.
  assert (E : invoke w self topic payload options = Some (future_no_state, [])).
  { unfold invokeMethod.
    destruct (refCount_ self =? 0); [reflexivity|].
    destruct (negb (isRPCMethod (resource topic))); [reflexivity|].
    destruct (Z.gtb_spec (UPriority_value UPRIORITY_CS4)
                (UPriority_value (opt_priority options))); [reflexivity|lia]. }
  split; [exact E|].
  intros f t E'. rewrite E in E'. injection E' as <- <-.
  repeat split.
Qed.

(** C7. The key of the query depends on the resource alone: two calls on
    the same resource, in whatever state and with whatever payload and
    options, query the same key, the decimal string of the hash of the
    serialized resource. The metadata record each of them attaches carries
    the id the UUID factory made for that call, and these ids differ: the
    factory, whatever its clock reads, never makes the same id twice. *)
Theorem same_resource_same_subject
  st readings i j
  w1 w2 self1 self2 topic payload1 payload2 options1 options2 f1 t1 f2 t2 c1 c2 :
  invoke w1 self1 topic payload1 options1 = Some (f1, t1) ->
  invoke w2 self2 topic payload2 options2 = Some (f2, t2) ->
  In c1 (get_calls t1) ->
  In c2 (get_calls t2) ->
  nth_error (Uuidv8Factory.ids readings st) i = Some (Uuidv8Factory_create w1) ->
  nth_error (Uuidv8Factory.ids readings st) j = Some (Uuidv8Factory_create w2) ->
  i <> j ->
  get_keyexpr c1 = std_to_string (std_hash (LongUriSerializer_serialize topic)) /\
  get_keyexpr c2 = get_keyexpr c1 /\
  exists a1 a2 b1 b2,
    get_attachment c1 = [("attributes", b1)] /\
    SerializeToArray a1 = Some b1 /\
    get_attachment c2 = [("attributes", b2)] /\
    SerializeToArray a2 = Some b2 /\
    id a1 = Uuidv8Factory_create w1 /\
    id a2 = Uuidv8Factory_create w2 /\
    id a1 <> id a2.
Proof.
  intros E1 E2 I1 I2 D1 D2 Hij.
  pose proof (ids_distinct readings st i j _ _ Hij D1 D2) as Hfresh.
  destruct (invoke_get_inv _ _ _ _ _ _ _ _ E1 I1) as (K1 & b1 & S1 & A1).
  destruct (invoke_get_inv _ _ _ _ _ _ _ _ E2 I2) as (K2 & b2 & S2 & A2).
  split; [exact K1|]. split; [now rewrite K1, K2|].
  exists (fst (build (Uuidv8Factory_create w1) options1)),
         (fst (build (Uuidv8Factory_create w2) options2)), b1, b2.
  destruct (build_attributes_fields (Uuidv8Factory_create w1) options1) as [I1' _].
  destruct (build_attributes_fields (Uuidv8Factory_create w2) options2) as [I2' _].
  rewrite I1', I2'. repeat split; assumption.
Qed.

End DispatcherFacts.

(** Worked examples for the dispatcher. *)

Lemma low_priority_is_rejected_witness :
  Sample.invoke (Sample.invoke_world 1) Sample.ready "svc/rpc.Do"
    (UPayload_new [] VALUE) (Sample.options UPRIORITY_CS0)
  = Some (future_no_state, []).
Proof.
  refine (proj1 (low_priority_is_rejected 5000 string string
                   (fun s : string => s)
                   (fun _ : string => true) (fun s : string => s)
                   Sample.hash Sample.serialize_attributes Sample.parse
                   (Sample.invoke_world 1) Sample.ready "svc/rpc.Do"
                   (UPayload_new [] VALUE) (Sample.options UPRIORITY_CS0) _)).
  vm_compute. reflexivity.
Defined.

Lemma same_resource_same_subject_witness :
  exists c1 c2 a1 a2 b1 b2,
    In c1 (get_calls
             (match Sample.invoke (Sample.invoke_world 1) Sample.ready
                      "svc/rpc.Do" (UPayload_new [] VALUE)
                      (Sample.options UPRIORITY_CS4)
              with Some (_, t) => t | None => [] end)) /\
    In c2 (get_calls
             (match Sample.invoke (Sample.invoke_world 2) Sample.ready
                      "svc/rpc.Do" (UPayload_new [x05] VALUE)
                      (Sample.options UPRIORITY_CS5)
              with Some (_, t) => t | None => [] end)) /\
    get_keyexpr c1 = "10" /\
    get_keyexpr c2 = get_keyexpr c1 /\
    get_attachment c1 = [("attributes", b1)] /\
    Sample.serialize_attributes a1 = Some b1 /\
    get_attachment c2 = [("attributes", b2)] /\
    Sample.serialize_attributes a2 = Some b2 /\
    id a1 = {| msb := 1; lsb := 0 |} /\
    id a2 = {| msb := 2; lsb := 0 |} /\
    id a1 <> id a2.
Proof.
  pose proof (same_resource_same_subject 5000 string string
                (fun s : string => s) (fun _ : string => true)
                (fun s : string => s) Sample.hash Sample.serialize_attributes
                {| Uuidv8Factory.last_time := 0; Uuidv8Factory.last_count := 0 |}
                [1; 2]%N 0%nat 1%nat
                (Sample.invoke_world 1) (Sample.invoke_world 2)
                Sample.ready Sample.ready "svc/rpc.Do"
                (UPayload_new [] VALUE) (UPayload_new [x05] VALUE)
                (Sample.options UPRIORITY_CS4) (Sample.options UPRIORITY_CS5)
                _ _ _ _ _ _
                eq_refl eq_refl (or_introl eq_refl) (or_introl eq_refl)
                eq_refl eq_refl) as H.
  destruct H as (K1 & K2 & a1 & a2 & b1 & b2 & H); [discriminate|].
  eexists _, _, a1, a2, b1, b2.
  split; [left; reflexivity|]. split; [left; reflexivity|].
  split; [exact K1|]. split; [exact K2|]. exact H.
Defined.

(** The scenario of the specification: after a successful acquire, a call
    at priority CS4 with an empty payload is dispatched, and a reply with
    payload [[0x01]] and a valid attachment resolves the future to a
    message with that payload and the attached metadata. *)
Example invoke_then_reply :
  let self := self_of (init Atomic.uint32 20 2 Sample.init_world instance) in
  exists f t,
    Sample.invoke (Sample.invoke_world 1) self "svc/rpc.Do"
      (UPayload_new [] VALUE) (Sample.options UPRIORITY_CS4) = Some (f, t) /\
    List.length (get_calls t) = 1%nat /\
    future_get Sample.parse f
    = Some (resolved_value (populated_from Sample.parse (Sample.reply x01 x02))).
Proof. cbv zeta. eexists. eexists. repeat split. Qed.

(** * Further properties of the code *)

Import Accounting.

(** ** The reply collector, continued *)

Section ReplyCollectorMore.

Variable ParseFromArray : list byte -> option UAttributes.

Local Abbreviation valid := (valid_reply ParseFromArray).
Local Abbreviation populated := (populated_from ParseFromArray).
Local Abbreviation taken := (accepted ParseFromArray).

Lemma accepted_In pending r :
  In r (taken pending) -> valid r = true /\ In r pending.
Proof.
  unfold accepted. induction pending as [|x rest IH]; cbn; [intros []|].
  destruct (valid x) eqn:V; [|intros []].
  intros [<-|H]; [auto|]. destruct (IH H). auto.
Qed.

Lemma accepted_nil_iff pending :
  taken pending = [] <->
  pending = [] \/ exists e rest, pending = e :: rest /\ valid e = false.
Proof.
  unfold accepted. destruct pending as [|e rest]; cbn.
  - split; auto.
  - destruct (valid e) eqn:V; split.
    + discriminate.
    + intros [H|(e' & rest' & [= <- <-] & H)]; congruence.
    + right. eauto.
    + reflexivity.
Qed.

Lemma accepted_stops before e rest rest' :
  valid e = false ->
  taken (before ++ e :: rest) = taken (before ++ e :: rest').
Proof.
  intros V. unfold accepted.
  induction before as [|x xs IH]; cbn.
  - now rewrite V.
  - destruct (valid x); [now rewrite IH|reflexivity].
Qed.

Lemma last_In {A} (l : list A) : forall x d, In (last (x :: l) d) (x :: l).
Proof.
  induction l as [|y l IH]; intros x d; [now left|].
  right. change (last (x :: y :: l) d) with (last (y :: l) d). apply IH.
Qed.

(** What a valid reply holds, field by field. *)
Lemma valid_inv r :
  valid r = true ->
  exists s body bytes attrs,
    r = reply_ok s /\
    sample_payload s = Some body /\ body <> [] /\
    z_attachment_get (sample_attachment s) "attributes" = Some bytes /\
    bytes <> [] /\
    ParseFromArray bytes = Some attrs /\
    populated r =
    {| payload := Some (UPayload_new body VALUE); attributes := Some attrs |}.
Proof.
  destruct r as [s|]; cbn; [|discriminate]. intros H.
  apply andb_prop in H as [H Hmeta].
  apply andb_prop in H as [H Hkey].
  apply andb_prop in H as [Hpay _].
  destruct (sample_payload s) as [body|] eqn:Epay; [|discriminate].
  destruct (z_attachment_get (sample_attachment s) "attributes")
    as [bytes|] eqn:Eget; [|discriminate].
  destruct (ParseFromArray bytes) as [attrs|] eqn:Eparse; [|discriminate].
  exists s, body, bytes, attrs.
  repeat split; try assumption; intros ->; discriminate.
Qed.

Lemma count_loop_trace_other p n :
  p EvRecv = false -> p EvReplyDrop = false -> count p (loop_trace n) = 0%nat.
Proof.
  intros H1 H2. unfold count.
  induction n; cbn [loop_trace filter]; rewrite H1; [reflexivity|].
  now rewrite H2.
Qed.

Lemma count_reply_drop_loop_trace n :
  count is_reply_drop (loop_trace n) = n.
Proof. unfold count. induction n; cbn in *; [reflexivity|]. now rewrite IHn. Qed.

(** X1. The message returned is the default one exactly when nothing was
    accepted: the channel delivered no reply at all, or the first reply it
    delivered is a transport error or malformed. No reply, an error and a
    malformed reply are indistinguishable in the result. *)
Theorem handleReply_empty_iff channel :
  fst (handleReply ParseFromArray channel) = UMessage_default <->
  fifo channel = [] \/
  exists e rest, fifo channel = e :: rest /\ valid e = false.
Proof.
  rewrite <- accepted_nil_iff, handleReply_accepted. cbn [fst].
  split.
  - destruct (taken (fifo channel)) as [|r l] eqn:E; [reflexivity|].
    intros H. exfalso.
    assert (I : In (last (map populated (r :: l)) UMessage_default)
                   (map populated (r :: l))) by apply last_In.
    rewrite H in I. apply in_map_iff in I as (x & Hx & Ix).
    rewrite <- E in Ix. apply accepted_In in Ix as [V _].
    destruct (valid_inv x V) as (? & ? & ? & ? & _ & _ & _ & _ & _ & _ & P).
    rewrite P in Hx. discriminate Hx.
  - intros ->. reflexivity.
Qed.

(** X2. A message that is not the default one is never half filled: its
    payload and its metadata record come from one and the same reply of
    the channel, the payload is not empty and is tagged as a value, and
    the record is what the reply's ["attributes"] entry parses to. *)
Theorem handleReply_result_shape channel :
  fst (handleReply ParseFromArray channel) = UMessage_default \/
  exists s body bytes attrs,
    In (reply_ok s) (fifo channel) /\
    sample_payload s = Some body /\ body <> [] /\
    z_attachment_get (sample_attachment s) "attributes" = Some bytes /\
    bytes <> [] /\
    ParseFromArray bytes = Some attrs /\
    fst (handleReply ParseFromArray channel) =
    {| payload := Some (UPayload_new body VALUE); attributes := Some attrs |}.
Proof.
  rewrite handleReply_accepted. cbn [fst].
  destruct (taken (fifo channel)) as [|r l] eqn:E; [now left|right].
  assert (I : In (last (map populated (r :: l)) UMessage_default)
                 (map populated (r :: l))) by apply last_In.
  apply in_map_iff in I as (x & Hx & Ix).
  rewrite <- E in Ix. apply accepted_In in Ix as [V Ix].
  destruct (valid_inv x V) as (s & body & bytes & attrs & -> & H1 & H2 & H3 & H4 & H5 & P).
  exists s, body, bytes, attrs. rewrite <- Hx, P. repeat split; assumption.
Qed.

(** X3. Nothing that follows the first rejected entry is looked at: the
    message returned and the calls made are the same whatever the channel
    holds after a transport error or a malformed entry. *)
Theorem handleReply_stops_at_rejection before e rest rest' :
  valid e = false ->
  handleReply ParseFromArray {| fifo := before ++ e :: rest |} =
  handleReply ParseFromArray {| fifo := before ++ e :: rest' |}.
Proof.
  intros V. rewrite !handleReply_accepted. cbn [fifo].
  now rewrite (accepted_stops before e rest rest' V).
Qed.

(** X4. Each accepted reply is dropped once, and only accepted replies
    are: there is one [recv] more than there are drops, so the reply that
    ends the loop through a [break] is left undropped. *)
Theorem handleReply_drops_accepted_only channel :
  let t := snd (handleReply ParseFromArray channel) in
  count is_reply_drop t = List.length (taken (fifo channel)) /\
  count is_recv t = S (count is_reply_drop t).
Proof.
  cbv zeta. rewrite handleReply_accepted. cbn [snd].
  rewrite !count_app, count_reply_drop_loop_trace, count_recv_loop_trace.
  cbn. lia.
Qed.

End ReplyCollectorMore.

Lemma handleReply_stops_at_rejection_witness :
  handleReply Sample.parse
    {| fifo := [Sample.reply x01 x02; reply_err; Sample.reply x03 x04] |} =
  handleReply Sample.parse {| fifo := [Sample.reply x01 x02; reply_err] |}.
Proof.
  exact (handleReply_stops_at_rejection Sample.parse [Sample.reply x01 x02]
           reply_err [Sample.reply x03 x04] [] eq_refl).
Defined.

(** ** The dispatcher, continued *)

Section DispatcherMore.

Variable requestTimeoutMs_ : Z.
Variable UUri : Type.
Variable UResource : Type.
Variable resource : UUri -> UResource.
Variable isRPCMethod : UResource -> bool.
Variable LongUriSerializer_serialize : UUri -> string.
Variable std_hash : string -> N.
Variable SerializeToArray : UAttributes -> option (list byte).
Variable ParseFromArray : list byte -> option UAttributes.

Local Abbreviation invoke :=
  (invokeMethod requestTimeoutMs_ resource isRPCMethod
     LongUriSerializer_serialize std_hash SerializeToArray).
Local Abbreviation build := (build_attributes requestTimeoutMs_).

(** The three tests at the head of [invokeMethod]. *)
Local Abbreviation admitted_call self topic options :=
  (negb (refCount_ self =? 0)
   && isRPCMethod (resource topic)
   && (UPriority_value UPRIORITY_CS4 <=? UPriority_value (opt_priority options))).

(** The ways through [invokeMethod] that return, with what each does. *)
Lemma invoke_cases w self topic payload options f t :
  invoke w self topic payload options = Some (f, t) ->
  let attrs := fst (build (Uuidv8Factory_create w) options) in
  (admitted_call self topic options = false /\
   f = future_no_state /\ t = []) \/
  (admitted_call self topic options = true /\
   SerializeToArray attrs = None /\
   f = future_no_state /\ t = [EvBytesMapDrop]) \/
  (exists bytes c,
     admitted_call self topic options = true /\
     SerializeToArray attrs = Some bytes /\
     get_attachment c = [("attributes", bytes)] /\
     get_parameters c = EmptyString /\
     get_payload c =
       (if Nat.eqb (UPayload_size payload) 0 then None
        else Some (data payload)) /\
     get_timeout_ms c = snd (build (Uuidv8Factory_create w) options) /\
     ((z_get_result w <> 0 /\ f = future_no_state /\
       t = [EvBytesMapNew; EvBytesMapInsert "attributes" bytes;
            EvChannelNew; EvReplyFifoNew 16;
            EvGet c; EvChannelDelete; EvBytesMapDrop]) \/
      (z_get_result w = 0 /\
       f = future_of_task {| fifo := replies_delivered w |} /\
       t = [EvBytesMapNew; EvBytesMapInsert "attributes" bytes;
            EvChannelNew; EvReplyFifoNew 16;
            EvGet c; EvSubmit; EvBytesMapDrop]))).
Proof.
  unfold invokeMethod. cbv zeta.
  destruct (refCount_ self =? 0); [intros [= <- <-]; now left|].
  destruct (isRPCMethod (resource topic));
    [|intros [= <- <-]; now left].
  cbn [negb andb].
  destruct (Z.gtb_spec (UPriority_value UPRIORITY_CS4)
              (UPriority_value (opt_priority options))) as [Hlow|Hok].
  { intros [= <- <-]. left. repeat split. apply Z.leb_gt. lia. }
  assert (E : (UPriority_value UPRIORITY_CS4
               <=? UPriority_value (opt_priority options)) = true)
    by (apply Z.leb_le; lia).
  rewrite E.
  destruct (build _ options) as [attributes timeout_ms]. cbn [fst snd].
  destruct (SerializeToArray attributes) as [bytes|];
    [|intros [= <- <-]; right; left; now repeat split].
  destruct (Z.eqb_spec (z_get_result w) 0) as [Hget|Hget]; cbn [negb].
  - destruct (threadPool_ self); [|discriminate].
    intros [= <- <-]. right. right. exists bytes.
    match goal with |- context [EvGet ?q] => exists q end.
    repeat (split; [reflexivity|]). right. now repeat split.
  - intros [= <- <-]. right. right. exists bytes.
    match goal with |- context [EvGet ?q] => exists q end.
    repeat (split; [reflexivity|]). left. now repeat split.
Qed.

(** X5. A call issues at most one query, never a second one, and it
    issues one exactly when the client is initialized, the resource is an
    RPC method, the priority is at least CS4 and the metadata record
    serializes. *)
Theorem invoke_issues_query_iff w self topic payload options f t :
  invoke w self topic payload options = Some (f, t) ->
  count is_get t =
  if admitted_call self topic options
     && is_some (SerializeToArray
                   (fst (build (Uuidv8Factory_create w) options)))
  then 1%nat else 0%nat.
Proof.
  intros E. apply invoke_cases in E. cbv zeta in E.
  destruct E as [(A & _ & ->)|[(A & S & _ & ->)|(bytes & c & A & S & _ & _ & _ & _ & H)]];
    rewrite A, ?S; cbn [andb is_some]; try reflexivity.
  destruct H as [(_ & _ & ->)|(_ & _ & ->)]; reflexivity.
Qed.

(** X6. The future returned has a shared state exactly when the reply
    collector was submitted, which happens only after a query the
    transport took; it then collects from the channel opened for this
    call. On every other path the future is the default-constructed one
    and nothing is submitted. *)
Theorem invoke_future_valid_iff_submitted w self topic payload options f t :
  invoke w self topic payload options = Some (f, t) ->
  (f = future_of_task {| fifo := replies_delivered w |} /\
   count is_submit t = 1%nat /\ count is_get t = 1%nat /\
   z_get_result w = 0) \/
  (f = future_no_state /\ count is_submit t = 0%nat).
Proof.
  intros E. apply invoke_cases in E. cbv zeta in E.
  destruct E as [(_ & -> & ->)|[(_ & _ & -> & ->)|(bytes & c & _ & _ & _ & _ & _ & _ & H)]];
    [right; now split|right; now split|].
  destruct H as [(_ & -> & ->)|(G & -> & ->)];
    [right; now split|left; now repeat split].
Qed.

(** X7. What the query carries: no parameters, the caller's payload (the
    null slice when it is empty), the caller's time-to-live as timeout
    when one is given and the default timeout otherwise, and as its only
    attachment entry the serialized record of a REQUEST with the caller's
    priority, the caller's time-to-live and the id made for this call. *)
Theorem invoke_query_contents w self topic payload options f t c :
  invoke w self topic payload options = Some (f, t) ->
  In c (get_calls t) ->
  get_parameters c = EmptyString /\
  get_payload c =
    (if Nat.eqb (UPayload_size payload) 0 then None else Some (data payload)) /\
  get_timeout_ms c =
    match opt_ttl options with
    | Some t => t mod 2 ^ 64
    | None => requestTimeoutMs_
    end /\
  exists attrs bytes,
    SerializeToArray attrs = Some bytes /\
    get_attachment c = [("attributes", bytes)] /\
    id attrs = Uuidv8Factory_create w /\
    type attrs = UMESSAGE_TYPE_REQUEST /\
    priority attrs = opt_priority options /\
    ttl attrs = opt_ttl options.
Proof.
  intros E I. apply invoke_cases in E. cbv zeta in E.
  destruct E as [(_ & _ & ->)|[(_ & _ & _ & ->)|(bytes & c' & _ & S & A & P & L & T & H)]];
    [destruct I|destruct I|].
  assert (c = c') as ->.
  { destruct H as [(_ & _ & ->)|(_ & _ & ->)]; cbn in I;
      destruct I as [<-|[]]; reflexivity. }
  repeat split; try assumption.
  - rewrite T. unfold build_attributes. now destruct (opt_ttl options).
  - destruct (build_attributes_fields requestTimeoutMs_
                (Uuidv8Factory_create w) options) as (F1 & F2 & F3 & F4).
    eauto 10.
Qed.

(** X8. Over a whole call, [invokeMethod] and then the submitted task, a
    reply channel is allocated at most once and every allocated channel is
    deleted exactly once: by [invokeMethod] when the transport refuses the
    query, by [handleReply] otherwise. The channel is dropped before being
    deleted only on the second path. *)
Theorem call_deletes_its_channel_once w self topic payload options f t :
  invoke w self topic payload options = Some (f, t) ->
  let whole := call_trace ParseFromArray (f, t) in
  (count is_channel_new whole <= 1)%nat /\
  count is_channel_delete whole = count is_channel_new whole /\
  count is_channel_delete t = (count is_channel_new t - count is_submit t)%nat /\
  count is_channel_drop whole = count is_submit whole.
Proof.
  intros E. apply invoke_cases in E. cbv zeta in E.
  unfold call_trace. cbn [fst snd].
  destruct E as [(_ & -> & ->)|[(_ & _ & -> & ->)|(bytes & c & _ & _ & _ & _ & _ & _ & H)]];
    [cbn; repeat split; lia|cbn; repeat split; lia|].
  destruct H as [(_ & -> & ->)|(_ & -> & ->)]; [cbn; repeat split; lia|].
  cbn [task_trace]. rewrite handleReply_accepted. cbn [snd].
  set (n := List.length _).
  rewrite !count_app.
  rewrite !(count_loop_trace_other _ n) by reflexivity.
  cbn. repeat split; lia.
Qed.

(** X9. The key under which [invokeMethod] attaches the metadata record
    is the key [handleReply] looks up: when the serialized record parses
    back and is not empty, and the reply carries a payload and the
    attachment of the request, the future resolves to that payload, tagged
    as a value, with the record of the request: a REQUEST with the
    caller's priority and time-to-live and the id made for the call. *)
Theorem echoed_metadata_is_recovered
  w self topic payload options pool body bytes :
  refCount_ self <> 0 ->
  isRPCMethod (resource topic) = true ->
  UPriority_value UPRIORITY_CS4 <= UPriority_value (opt_priority options) ->
  threadPool_ self = Some pool ->
  z_get_result w = 0 ->
  SerializeToArray (fst (build (Uuidv8Factory_create w) options)) = Some bytes ->
  ParseFromArray bytes = Some (fst (build (Uuidv8Factory_create w) options)) ->
  bytes <> [] ->
  body <> [] ->
  replies_delivered w =
    [reply_ok {| sample_payload := Some body;
                 sample_attachment := Some [("attributes", bytes)] |}] ->
  exists f t c,
    invoke w self topic payload options = Some (f, t) /\
    get_calls t = [c] /\
    get_attachment c = [("attributes", bytes)] /\
    future_get ParseFromArray f =
    Some (resolved_value
            {| payload := Some (UPayload_new body VALUE);
               attributes :=
                 Some {| id := Uuidv8Factory_create w;
                         type := UMESSAGE_TYPE_REQUEST;
                         priority := opt_priority options;
                         ttl := opt_ttl options |} |}).
Proof.
  intros H0 Hrpc Hprio Hpool Hget Hser Hparse Hbytes Hbody Hreply.
  assert (Hrecord :
    fst (build (Uuidv8Factory_create w) options) =
    {| id := Uuidv8Factory_create w; type := UMESSAGE_TYPE_REQUEST;
       priority := opt_priority options; ttl := opt_ttl options |}).
  { unfold build_attributes. now destruct (opt_ttl options). }
  rewrite Hrecord in Hser, Hparse.
  unfold invokeMethod.
  destruct (Z.eqb_spec (refCount_ self) 0); [contradiction|].
  rewrite Hrpc. cbn [negb].
  destruct (Z.gtb_spec (UPriority_value UPRIORITY_CS4)
              (UPriority_value (opt_priority options))); [lia|].
  destruct (build _ options) as [attributes timeout_ms]. cbn [fst] in Hrecord.
  subst attributes.
  rewrite Hser, Hget, Hpool, Hreply. cbn [Z.eqb negb].
  eexists _, _, _. split; [reflexivity|].
  split; [reflexivity|]. split; [reflexivity|].
  unfold future_get, handleReply. cbn.
  destruct body as [|b0 body]; [contradiction|].
  destruct bytes as [|b1 bytes]; [contradiction|].
  cbn. rewrite Hparse. reflexivity.
Qed.

End DispatcherMore.

(** Worked examples for the dispatcher, continued. *)

Lemma invoke_issues_query_iff_witness :
  exists f t,
    Sample.invoke (Sample.invoke_world 1) Sample.ready "svc/rpc.Do"
      (UPayload_new [x05] VALUE) (Sample.options UPRIORITY_CS5) = Some (f, t) /\
    count is_get t = 1%nat.
Proof.
  eexists. eexists. split; [reflexivity|].
  exact (invoke_issues_query_iff 5000 string string (fun s : string => s)
           (fun _ : string => true) (fun s : string => s) Sample.hash
           Sample.serialize_attributes (Sample.invoke_world 1) Sample.ready
           "svc/rpc.Do" (UPayload_new [x05] VALUE)
           (Sample.options UPRIORITY_CS5) _ _ eq_refl).
Defined.

Lemma invoke_future_valid_iff_submitted_witness :
  exists f t,
    Sample.invoke (Sample.invoke_world 1) Sample.ready "svc/rpc.Do"
      (UPayload_new [x05] VALUE) (Sample.options UPRIORITY_CS5) = Some (f, t) /\
    ((f = future_of_task
            {| fifo := replies_delivered (Sample.invoke_world 1) |} /\
      count is_submit t = 1%nat /\ count is_get t = 1%nat /\
      z_get_result (Sample.invoke_world 1) = 0) \/
     (f = future_no_state /\ count is_submit t = 0%nat)).
Proof.
  eexists. eexists. split; [reflexivity|].
  exact (invoke_future_valid_iff_submitted 5000 string string
           (fun s : string => s) (fun _ : string => true)
           (fun s : string => s) Sample.hash Sample.serialize_attributes
           (Sample.invoke_world 1) Sample.ready "svc/rpc.Do"
           (UPayload_new [x05] VALUE) (Sample.options UPRIORITY_CS5)
           _ _ eq_refl).
Defined.

Lemma invoke_query_contents_witness :
  exists c,
    get_payload c = Some [x05] /\
    get_timeout_ms c = 100 /\
    get_attachment c = [("attributes", [x01])].
Proof.
  destruct (invoke_query_contents 5000 string string (fun s : string => s)
              (fun _ : string => true) (fun s : string => s) Sample.hash
              Sample.serialize_attributes (Sample.invoke_world 1) Sample.ready
              "svc/rpc.Do" (UPayload_new [x05] VALUE)
              {| opt_priority := UPRIORITY_CS6; opt_ttl := Some 100 |}
              _ _ _ eq_refl (or_introl eq_refl))
    as (_ & P & T & _).
  eexists. split; [exact P|]. split; [exact T|]. reflexivity.
Defined.

Lemma call_deletes_its_channel_once_witness :
  exists f t,
    Sample.invoke (Sample.invoke_world 1) Sample.ready "svc/rpc.Do"
      (UPayload_new [x05] VALUE) (Sample.options UPRIORITY_CS5) = Some (f, t) /\
    count is_channel_delete (call_trace Sample.parse (f, t)) =
    count is_channel_new (call_trace Sample.parse (f, t)).
Proof.
  eexists. eexists. split; [reflexivity|].
  exact (proj1 (proj2
           (call_deletes_its_channel_once 5000 string string
              (fun s : string => s) (fun _ : string => true)
              (fun s : string => s) Sample.hash Sample.serialize_attributes
              Sample.parse (Sample.invoke_world 1) Sample.ready "svc/rpc.Do"
              (UPayload_new [x05] VALUE) (Sample.options UPRIORITY_CS5)
              _ _ eq_refl))).
Defined.

Lemma echoed_metadata_is_recovered_witness :
  exists f t,
    Sample.invoke sample_echo_world Sample.ready "svc/rpc.Do"
      (UPayload_new [] VALUE) (Sample.options UPRIORITY_CS4) = Some (f, t) /\
    future_get sample_parse_request f =
    Some (resolved_value
            {| payload := Some (UPayload_new [x09] VALUE);
               attributes :=
                 Some {| id := {| msb := 1; lsb := 0 |};
                         type := UMESSAGE_TYPE_REQUEST;
                         priority := UPRIORITY_CS4;
                         ttl := None |} |}).
Proof.
  destruct (echoed_metadata_is_recovered 5000 string string
              (fun s : string => s) (fun _ : string => true)
              (fun s : string => s) Sample.hash Sample.serialize_attributes
              sample_parse_request sample_echo_world Sample.ready
              "svc/rpc.Do" (UPayload_new [] VALUE)
              (Sample.options UPRIORITY_CS4)
              {| pool_queueSize := 20; pool_workers := 2 |} [x09] [x01])
    as (f & t & c & E & _ & _ & F);
    try reflexivity; try discriminate.
  exists f, t. split; [exact E|exact F].
Defined.

(** ** The lifecycle, continued *)

Section LifecycleMore.

Variable R : Atomic.repr.
Variable queueSize_ maxNumOfCuncurrentRequests_ : nat.

Local Abbreviation init_ := (init R queueSize_ maxNumOfCuncurrentRequests_).
Local Abbreviation step_ := (step R queueSize_ maxNumOfCuncurrentRequests_).
Local Abbreviation run_ := (run R queueSize_ maxNumOfCuncurrentRequests_).
Local Abbreviation top := (Atomic.max_value R).
Local Abbreviation ready := (members_ready R).
Local Abbreviation guarded_ :=
  (guarded R queueSize_ maxNumOfCuncurrentRequests_).

Lemma with_refCount_same self : with_refCount (refCount_ self) self = self.
Proof. now destruct self. Qed.

(** An acquire leaves the count or adds one to it. *)
Lemma init_count_step w self :
  0 <= refCount_ self < top ->
  refCount_ (self_of (init_ w self)) = refCount_ self \/
  refCount_ (self_of (init_ w self)) = refCount_ self + 1.
Proof.
  intros H. destruct (Z.eq_dec (refCount_ self) 0) as [E|E].
  - unfold init. rewrite E. cbn [Z.eqb].
    destruct (negb (UCode_eqb OK (sessionManager_init w))); [now left|].
    destruct (sessionManager_getSession w); [|now left].
    destruct (make_shared_ThreadPool w); [right|now left].
    unfold self_of. cbn [fst snd refCount_ with_refCount with_session
                         with_threadPool].
    unfold Atomic.fetch_add. rewrite E. apply wrap_small. lia.
  - right.
    now rewrite (init_above_zero R queueSize_ maxNumOfCuncurrentRequests_
                   w self) by lia.
Qed.

(** X10. On a client that is already initialized an acquire is only a
    count: it returns OK whatever the session manager and the allocator
    would have answered, calls neither, and leaves the session and the
    pool as they are. *)
Theorem init_when_initialized w w' self :
  0 < refCount_ self < top ->
  init_ w self = init_ w' self /\
  code (status_of (init_ w self)) = OK /\
  trace_of (init_ w self) = [] /\
  refCount_ (self_of (init_ w self)) = refCount_ self + 1 /\
  session_ (self_of (init_ w self)) = session_ self /\
  threadPool_ (self_of (init_ w self)) = threadPool_ self.
Proof.
  intros H.
  rewrite (init_above_zero R queueSize_ maxNumOfCuncurrentRequests_ w self H).
  rewrite (init_above_zero R queueSize_ maxNumOfCuncurrentRequests_ w' self H).
  repeat split.
Qed.

(** X11. A release subtracts one whatever the session manager answers:
    the session manager is terminated exactly when the count reaches 0,
    [UNAVAILABLE] is returned exactly when it then fails, and even then
    the count stays decremented. The session and the pool members are
    never touched. *)
Theorem term_decrements_first a self :
  let out := term R a self in
  refCount_ (self_of out) = Atomic.fetch_sub R (refCount_ self) 1 /\
  trace_of out =
    (if refCount_ (self_of out) =? 0 then [EvSessionManagerTerm] else []) /\
  (code (status_of out) = UNAVAILABLE <->
   refCount_ (self_of out) = 0 /\ a <> OK) /\
  session_ (self_of out) = session_ self /\
  threadPool_ (self_of out) = threadPool_ self.
Proof.
  cbv zeta. unfold term. cbn [refCount_ with_refCount].
  destruct (Z.eqb_spec (Atomic.fetch_sub R (refCount_ self) 1) 0) as [E|E].
  - destruct a; cbn; rewrite E; repeat split; try reflexivity;
      try discriminate; try (intros [_ H]; now elim H); intros; discriminate.
  - cbn. destruct (Z.eqb_spec (Atomic.fetch_sub R (refCount_ self) 1) 0);
      [contradiction|].
    repeat split; try reflexivity; try discriminate.
    intros [H _]. contradiction.
Qed.

(** X12. An acquire counts exactly when it returns OK: it fails only at
    count 0 and only when the session manager, the session lookup or the
    allocator fails, and a failed acquire adds nothing to the count. *)
Theorem init_counts_iff_ok w self :
  0 <= refCount_ self < top ->
  let ok := negb (refCount_ self =? 0) || init_succeeds w in
  code (status_of (init_ w self)) = (if ok then OK else UNAVAILABLE) /\
  refCount_ (self_of (init_ w self)) =
    refCount_ self + (if ok then 1 else 0).
Proof.
  intros H. cbv zeta.
  destruct (Z.eqb_spec (refCount_ self) 0) as [E|E]; cbn [negb orb].
  - destruct (init_succeeds w) eqn:S.
    + destruct (init_at_zero R queueSize_ maxNumOfCuncurrentRequests_
                  w self E S) as [C _].
      rewrite C, E. split; [|reflexivity].
      unfold init_succeeds in S. unfold init. rewrite E. cbn [Z.eqb].
      apply andb_prop in S as [S Hpool]. apply andb_prop in S as [Hsm Hsess].
      rewrite Hsm. cbn [negb].
      destruct (sessionManager_getSession w); [|discriminate].
      now rewrite Hpool.
    + unfold init_succeeds in S. unfold init. rewrite E. cbn [Z.eqb].
      destruct (UCode_eqb OK (sessionManager_init w)); cbn [negb andb] in *;
        [|now cbn; rewrite E].
      destruct (sessionManager_getSession w); cbn [is_some andb] in *;
        [|now cbn; rewrite E].
      rewrite S. cbn. now rewrite E.
  - rewrite (init_above_zero R queueSize_ maxNumOfCuncurrentRequests_ w self)
      by lia.
    split; reflexivity.
Qed.

(** X13. On an initialized client, an acquire followed by a release puts
    every member back as it was, both return OK and neither calls a
    collaborator. *)
Theorem init_then_term_restores w a self :
  0 < refCount_ self < top ->
  self_of (term R a (self_of (init_ w self))) = self /\
  code (status_of (init_ w self)) = OK /\
  code (status_of (term R a (self_of (init_ w self)))) = OK /\
  trace_of (init_ w self) ++ trace_of (term R a (self_of (init_ w self))) = [].
Proof.
  intros H.
  rewrite (init_above_zero R queueSize_ maxNumOfCuncurrentRequests_ w self H).
  unfold self_of, status_of, trace_of. cbn [fst snd].
  unfold term, Atomic.fetch_sub. cbn [refCount_ with_refCount].
  replace (refCount_ self + 1 - 1) with (refCount_ self) by lia.
  rewrite (wrap_small R) by lia.
  destruct (Z.eqb_spec (refCount_ self) 0); [lia|].
  cbn. repeat split. destruct self; reflexivity.
Qed.

Lemma step_keeps_ready c self :
  ready self ->
  guarded_ [c] self = true ->
  ready (self_of (step_ c self)).
Proof.
  intros [Hrange Hset] G. cbn [guarded] in G.
  apply andb_prop in G as [G _].
  destruct c as [w|a]; cbn [step].
  - apply Z.ltb_lt in G.
    destruct (Z.eq_dec (refCount_ self) 0) as [E|E].
    + unfold init, members_ready, self_of. rewrite E. cbn [Z.eqb].
      destruct (negb (UCode_eqb OK (sessionManager_init w)));
        [cbn [fst snd]; rewrite E; split; [lia|intros; lia]|].
      destruct (sessionManager_getSession w);
        [|cbn [fst snd]; rewrite E; split; [lia|intros; lia]].
      destruct (make_shared_ThreadPool w);
        cbn [fst snd refCount_ session_ threadPool_
             with_refCount with_session with_threadPool]; rewrite ?E.
      * unfold Atomic.fetch_add. rewrite (wrap_small R) by lia.
        split; [lia|]. intros _. split; discriminate.
      * split; [lia|intros; lia].
    + rewrite (init_above_zero R queueSize_ maxNumOfCuncurrentRequests_ w self)
        by lia.
      unfold members_ready, self_of.
      cbn [fst snd refCount_ session_ threadPool_ with_refCount].
      split; [lia|]. intros _. apply Hset. lia.
  - apply Z.ltb_lt in G.
    destruct (term_count R a self ltac:(lia)) as (C & S & P & _).
    split; [lia|]. rewrite S, P. intros _. apply Hset. lia.
Qed.

Lemma guarded_run_ready cs : forall self,
  ready self -> guarded_ cs self = true -> ready (fst (run_ cs self)).
Proof.
  induction cs as [|c cs IH]; intros self Hr G; [exact Hr|].
  rewrite run_cons. cbn [fst]. cbn [guarded] in G.
  apply andb_prop in G as [Gc G].
  apply IH; [|exact G].
  apply step_keeps_ready; [exact Hr|]. cbn [guarded]. now rewrite Gc.
Qed.

(** X14. The session manager is never terminated more often than it was
    initialized: over any sequence of lifecycle calls that releases only
    what was acquired, terminations plus the session still held never
    exceed initializations, and they are equal when no acquire fails. *)
Theorem session_manager_calls_pair cs : forall self,
  0 <= refCount_ self <= top ->
  guarded_ cs self = true ->
  let t := snd (run_ cs self) in
  let self' := fst (run_ cs self) in
  (count is_session_term t + b2n (initialized self')
   <= count is_session_init t + b2n (initialized self))%nat /\
  (forallb call_succeeds cs = true ->
   (count is_session_term t + b2n (initialized self')
    = count is_session_init t + b2n (initialized self))%nat).
Proof.
  cbv zeta.
  induction cs as [|c cs IH]; intros self Hrange G; [cbn; split; lia|].
  rewrite run_cons. cbn [fst snd]. cbn [guarded] in G.
  apply andb_prop in G as [Gc G].
  assert (Hstep :
    0 <= refCount_ (self_of (step_ c self)) <= top /\
    (count is_session_term (trace_of (step_ c self))
       + b2n (initialized (self_of (step_ c self)))
     <= count is_session_init (trace_of (step_ c self))
        + b2n (initialized self))%nat /\
    (call_succeeds c = true ->
     (count is_session_term (trace_of (step_ c self))
        + b2n (initialized (self_of (step_ c self)))
      = count is_session_init (trace_of (step_ c self))
        + b2n (initialized self))%nat)).
  { unfold initialized. destruct c as [w|a]; cbn [step call_succeeds].
    - apply Z.ltb_lt in Gc.
      destruct (Z.eqb_spec (refCount_ self) 0) as [E|E].
      + split; [|split].
        * destruct (init_count_step w self ltac:(lia)) as [C|C];
            rewrite C; lia.
        * unfold init. rewrite E. cbn [Z.eqb].
          destruct (negb (UCode_eqb OK (sessionManager_init w)));
            [cbn; rewrite E; cbn; lia|].
          destruct (sessionManager_getSession w);
            [|cbn; rewrite E; cbn; lia].
          destruct (make_shared_ThreadPool w); cbn; rewrite ?E; cbn;
            [|lia].
          destruct (_ =? 0); cbn; lia.
        * intros S.
          destruct (init_at_zero R queueSize_ maxNumOfCuncurrentRequests_
                      w self E S) as [C T].
          rewrite C. cbn.
          unfold init_succeeds in S. unfold init. rewrite E. cbn [Z.eqb].
          apply andb_prop in S as [S Hpool].
          apply andb_prop in S as [Hsm Hsess].
          rewrite Hsm. cbn [negb].
          destruct (sessionManager_getSession w); [|discriminate].
          rewrite Hpool. reflexivity.
      + rewrite (init_above_zero R queueSize_ maxNumOfCuncurrentRequests_
                   w self) by lia.
        cbn. destruct (Z.eqb_spec (refCount_ self + 1) 0); [lia|].
        cbn. repeat split; lia.
    - apply Z.ltb_lt in Gc.
      destruct (term_count R a self ltac:(lia)) as (C & _ & _ & T).
      rewrite C, T.
      destruct (Z.eqb_spec (refCount_ self) 0); [lia|].
      destruct (Z.eqb_spec (refCount_ self) 1) as [E1|E1].
      + rewrite E1. cbn. repeat split; lia.
      + destruct (Z.eqb_spec (refCount_ self - 1) 0); [lia|].
        cbn. repeat split; lia. }
  destruct Hstep as (Hr & Hle & Heq).
  destruct (IH _ Hr G) as [IHle IHeq].
  rewrite !count_app. split; [lia|].
  intros S. cbn [forallb] in S. apply andb_prop in S as [Sc S].
  specialize (Heq Sc). specialize (IHeq S). lia.
Qed.

End LifecycleMore.

(** ** Lifecycle and dispatch together *)

Section LifecycleAndDispatch.

Variable R : Atomic.repr.
Variable queueSize_ maxNumOfCuncurrentRequests_ : nat.
Variable requestTimeoutMs_ : Z.
Variable UUri : Type.
Variable UResource : Type.
Variable resource : UUri -> UResource.
Variable isRPCMethod : UResource -> bool.
Variable LongUriSerializer_serialize : UUri -> string.
Variable std_hash : string -> N.
Variable SerializeToArray : UAttributes -> option (list byte).

Local Abbreviation invoke :=
  (invokeMethod requestTimeoutMs_ resource isRPCMethod
     LongUriSerializer_serialize std_hash SerializeToArray).
Local Abbreviation run_ := (run R queueSize_ maxNumOfCuncurrentRequests_).

(** X15. [invokeMethod] uses [threadPool_] without testing it; this is
    safe in every state the lifecycle calls lead to as long as nothing is
    released that was not acquired: the session and the pool are then set
    whenever the count is positive, whatever the collaborators answered
    along the way, and no call dereferences a null pool. *)
Theorem guarded_run_keeps_client_usable cs self w topic payload options :
  members_ready R self ->
  guarded R queueSize_ maxNumOfCuncurrentRequests_ cs self = true ->
  members_ready R (fst (run_ cs self)) /\
  invoke w (fst (run_ cs self)) topic payload options <> None.
Proof.
  intros Hr G.
  pose proof (guarded_run_ready R queueSize_ maxNumOfCuncurrentRequests_
                cs self Hr G) as Hr'.
  split; [exact Hr'|].
  destruct Hr' as [Hrange Hset]. unfold invokeMethod.
  destruct (Z.eqb_spec (refCount_ (fst (run_ cs self))) 0); [discriminate|].
  destruct (negb _); [discriminate|].
  destruct (_ >? _); [discriminate|].
  destruct (build_attributes _ _ _) as [attributes timeout_ms].
  destruct (SerializeToArray attributes); [|discriminate].
  destruct (negb _); [discriminate|].
  destruct (threadPool_ (fst (run_ cs self))) eqn:P; [discriminate|].
  destruct Hset as [_ Hpool]; [lia|]. contradiction.
Qed.

(** X16. A release on a client that never acquired leaves a count that
    is not 0, so the first test of [invokeMethod] lets a call through;
    when the other tests pass and the transport takes the query, the call
    goes on to use a pool that was never created. *)
Theorem invoke_after_unpaired_term a w topic payload options bytes :
  isRPCMethod (resource topic) = true ->
  UPriority_value UPRIORITY_CS4 <= UPriority_value (opt_priority options) ->
  SerializeToArray
    (fst (build_attributes requestTimeoutMs_ (Uuidv8Factory_create w) options))
  = Some bytes ->
  z_get_result w = 0 ->
  initialized (self_of (term R a instance)) = true /\
  invoke w (self_of (term R a instance)) topic payload options = None.
Proof.
  intros Hrpc Hprio Hser Hget.
  assert (E : self_of (term R a instance)
              = {| refCount_ := Atomic.wrap R (-1);
                   session_ := None; threadPool_ := None |}).
  { unfold term, Atomic.fetch_sub. cbn [refCount_ instance with_refCount].
    change (0 - 1) with (-1).
    destruct (Atomic.wrap R (-1) =? 0); [destruct a|]; reflexivity. }
  rewrite E. unfold initialized, invokeMethod. cbn [refCount_ threadPool_].
  assert (N0 : (Atomic.wrap R (-1) =? 0) = false) by now destruct R.
  rewrite N0, Hrpc. cbn [negb]. split; [reflexivity|].
  destruct (Z.gtb_spec (UPriority_value UPRIORITY_CS4)
              (UPriority_value (opt_priority options))); [lia|].
  destruct (build_attributes _ _ _) as [attributes timeout_ms].
  cbn [fst] in Hser. now rewrite Hser, Hget.
Qed.

End LifecycleAndDispatch.

(** Worked examples for the lifecycle, continued. *)

Lemma init_when_initialized_witness :
  init Atomic.uint32 20 2 Sample.init_world_without_session Sample.ready
  = init Atomic.uint32 20 2 Sample.init_world Sample.ready /\
  code (status_of (init Atomic.uint32 20 2 Sample.init_world_without_session
                     Sample.ready)) = OK.
Proof.
  destruct (init_when_initialized Atomic.uint32 20 2
              Sample.init_world_without_session Sample.init_world Sample.ready)
    as (H1 & H2 & _); [cbn; lia|].
  split; [exact H1|exact H2].
Defined.

Lemma init_counts_iff_ok_witness :
  code (status_of (init Atomic.int32 20 2 Sample.init_world_without_session
                     instance)) = UNAVAILABLE /\
  refCount_ (self_of (init Atomic.int32 20 2 Sample.init_world_without_session
                        instance)) = 0.
Proof.
  destruct (init_counts_iff_ok Atomic.int32 20 2
              Sample.init_world_without_session instance)
    as (H1 & H2); [cbn; lia|].
  split; [exact H1|exact H2].
Defined.

Lemma init_then_term_restores_witness :
  self_of (term Atomic.uint32 UNAVAILABLE
             (self_of (init Atomic.uint32 20 2 Sample.init_world Sample.ready)))
  = Sample.ready.
Proof.
  refine (proj1 (init_then_term_restores Atomic.uint32 20 2 Sample.init_world
                   UNAVAILABLE Sample.ready _)).
  cbn. lia.
Defined.

Lemma session_manager_calls_pair_witness :
  let cs := [call_init Sample.init_world_without_session;
             call_init Sample.init_world; call_init Sample.init_world;
             call_term OK; call_term OK] in
  (count is_session_term (snd (run Atomic.uint32 20 2 cs instance))
   + b2n (initialized (fst (run Atomic.uint32 20 2 cs instance)))
   <= count is_session_init (snd (run Atomic.uint32 20 2 cs instance))
      + b2n (initialized instance))%nat.
Proof.
  cbv zeta.
  refine (proj1 (session_manager_calls_pair Atomic.uint32 20 2 _ instance _ _)).
  - cbn. lia.
  - reflexivity.
Defined.

Lemma guarded_run_keeps_client_usable_witness :
  Sample.invoke (Sample.invoke_world 1)
    (fst (run Atomic.uint32 20 2
            [call_init Sample.init_world_without_session;
             call_init Sample.init_world; call_init Sample.init_world;
             call_term INTERNAL]
            instance))
    "svc/rpc.Do" (UPayload_new [] VALUE) (Sample.options UPRIORITY_CS4)
  <> None.
Proof.
  refine (proj2 (guarded_run_keeps_client_usable Atomic.uint32 20 2 5000
                   string string (fun s : string => s)
                   (fun _ : string => true) (fun s : string => s)
                   Sample.hash Sample.serialize_attributes _ instance
                   (Sample.invoke_world 1) "svc/rpc.Do"
                   (UPayload_new [] VALUE) (Sample.options UPRIORITY_CS4)
                   _ _)).
  - split; [cbn; lia|]. cbn. lia.
  - reflexivity.
Defined.

Lemma invoke_after_unpaired_term_witness :
  Sample.invoke (Sample.invoke_world 1)
    (self_of (term Atomic.uint32 OK instance))
    "svc/rpc.Do" (UPayload_new [] VALUE) (Sample.options UPRIORITY_CS4)
  = None.
Proof.
  refine (proj2 (invoke_after_unpaired_term Atomic.uint32 5000 string string
                   (fun s : string => s) (fun _ : string => true)
                   (fun s : string => s) Sample.hash
                   Sample.serialize_attributes OK (Sample.invoke_world 1)
                   "svc/rpc.Do" (UPayload_new [] VALUE)
                   (Sample.options UPRIORITY_CS4) [x01] _ _ _ _));
    reflexivity.
Defined.

(** ** Sequences of lifecycle calls *)

Section LifecycleSequences.

Variable R : Atomic.repr.
Variable queueSize_ maxNumOfCuncurrentRequests_ : nat.

Local Abbreviation init_ := (init R queueSize_ maxNumOfCuncurrentRequests_).
Local Abbreviation step_ := (step R queueSize_ maxNumOfCuncurrentRequests_).
Local Abbreviation run_ := (run R queueSize_ maxNumOfCuncurrentRequests_).
Local Abbreviation top := (Atomic.max_value R).
Local Abbreviation guarded_ :=
  (guarded R queueSize_ maxNumOfCuncurrentRequests_).
Local Abbreviation acquired_ :=
  (acquired R queueSize_ maxNumOfCuncurrentRequests_).
Local Abbreviation pool :=
  {| pool_queueSize := queueSize_;
     pool_workers := maxNumOfCuncurrentRequests_ |}.

Lemma top_positive : 1 <= top.
Proof. destruct R; cbn; lia. Qed.

Lemma with_refCount_twice a b self :
  with_refCount a (with_refCount b self) = with_refCount a self.
Proof. reflexivity. Qed.

(** The first acquire: everything is set up. *)
Lemma init_first w self :
  refCount_ self = 0 ->
  init_succeeds w = true ->
  init_ w self =
  (status OK,
   {| refCount_ := 1; session_ := sessionManager_getSession w;
      threadPool_ := Some pool |},
   [EvSessionManagerInit; EvThreadPoolNew]).
Proof.
  intros E S. unfold init_succeeds in S.
  apply andb_prop in S as [S Hpool]. apply andb_prop in S as [Hsm Hsess].
  unfold init. rewrite E. cbn [Z.eqb]. rewrite Hsm. cbn [negb].
  destruct (sessionManager_getSession w); [|discriminate].
  rewrite Hpool. unfold with_refCount, with_threadPool, with_session.
  cbn [refCount_ session_ threadPool_]. rewrite E.
  unfold Atomic.fetch_add. rewrite (wrap_small R) by (pose proof top_positive; lia).
  reflexivity.
Qed.

Lemma term_above_one a self :
  1 < refCount_ self <= top ->
  term R a self = (status OK, with_refCount (refCount_ self - 1) self, []).
Proof.
  intros H. unfold term, Atomic.fetch_sub. cbn [refCount_ with_refCount].
  rewrite (wrap_small R) by lia.
  destruct (Z.eqb_spec (refCount_ self - 1) 0); [lia|reflexivity].
Qed.

Lemma run_inits_above_zero ws : forall self,
  0 < refCount_ self ->
  refCount_ self + Z.of_nat (List.length ws) <= top ->
  run_ (map call_init ws) self =
  (with_refCount (refCount_ self + Z.of_nat (List.length ws)) self, []).
Proof.
  induction ws as [|w ws IH]; intros self Hpos Htop.
  - cbn. now rewrite Z.add_0_r, with_refCount_same.
  - cbn [map List.length] in *. rewrite Nat2Z.inj_succ in *.
    rewrite run_cons. cbn [step].
    rewrite (init_above_zero R queueSize_ maxNumOfCuncurrentRequests_ w self)
      by lia.
    unfold self_of, trace_of. cbn [fst snd].
    rewrite IH by (cbn [refCount_ with_refCount]; lia).
    cbn [fst snd refCount_ with_refCount app]. rewrite with_refCount_twice.
    do 2 f_equal. lia.
Qed.

Lemma run_terms_above_one codes : forall self,
  Z.of_nat (List.length codes) < refCount_ self <= top ->
  run_ (map call_term codes) self =
  (with_refCount (refCount_ self - Z.of_nat (List.length codes)) self, []).
Proof.
  induction codes as [|a codes IH]; intros self H.
  - cbn. now rewrite Z.sub_0_r, with_refCount_same.
  - cbn [map List.length] in *. rewrite Nat2Z.inj_succ in *.
    rewrite run_cons. cbn [step]. rewrite term_above_one by lia.
    unfold self_of, trace_of. cbn [fst snd].
    rewrite IH by (cbn [refCount_ with_refCount]; lia).
    cbn [fst snd refCount_ with_refCount app]. rewrite with_refCount_twice.
    do 2 f_equal. lia.
Qed.

(** An acquire adds one to the count exactly when it returns OK. *)
Lemma init_count_status w self :
  0 <= refCount_ self < top ->
  refCount_ (self_of (init_ w self)) =
  refCount_ self
  + (if UCode_eqb OK (code (status_of (init_ w self))) then 1 else 0).
Proof.
  intros H. destruct (Z.eq_dec (refCount_ self) 0) as [E|E].
  - unfold init. rewrite E. cbn [Z.eqb].
    destruct (negb (UCode_eqb OK (sessionManager_init w)));
      [cbn; now rewrite E|].
    destruct (sessionManager_getSession w); [|cbn; now rewrite E].
    destruct (make_shared_ThreadPool w); [|cbn; now rewrite E].
    unfold self_of, status_of.
    cbn [fst snd refCount_ with_refCount with_session with_threadPool
         code status set_code UCode_eqb].
    unfold Atomic.fetch_add. rewrite E. apply (wrap_small R). lia.
  - rewrite (init_above_zero R queueSize_ maxNumOfCuncurrentRequests_ w self)
      by lia.
    reflexivity.
Qed.

Lemma guarded_prefix cs more : forall self,
  guarded_ (cs ++ more) self = true -> guarded_ cs self = true.
Proof.
  induction cs as [|c cs IH]; intros self G; [reflexivity|].
  cbn [app guarded] in *. apply andb_prop in G as [Gc G].
  rewrite Gc. cbn [andb]. now apply IH.
Qed.

(** Whatever the collaborators answer, as long as nothing is released at
    count 0 the count is what was acquired minus what was released. *)
Lemma guarded_run_counts cs : forall self,
  0 <= refCount_ self <= top ->
  guarded_ cs self = true ->
  refCount_ (fst (run_ cs self))
  = refCount_ self + acquired_ cs self - released cs /\
  0 <= refCount_ (fst (run_ cs self)) <= top.
Proof.
  induction cs as [|c cs IH]; intros self Hrange G.
  - cbn. lia.
  - rewrite run_cons. cbn [fst]. cbn [guarded] in G.
    apply andb_prop in G as [Gc G].
    assert (Hstep :
      refCount_ (self_of (step_ c self))
      = refCount_ self
        + match c with
          | call_init _ =>
              if UCode_eqb OK (code (status_of (step_ c self))) then 1 else 0
          | call_term _ => -1
          end).
    { destruct c as [w|a]; cbn [step].
      - apply Z.ltb_lt in Gc. apply init_count_status. lia.
      - apply Z.ltb_lt in Gc.
        destruct (term_count R a self ltac:(lia)) as [E _]. lia. }
    assert (Hrange' : 0 <= refCount_ (self_of (step_ c self)) <= top).
    { rewrite Hstep. destruct c as [w|a].
      - apply Z.ltb_lt in Gc. destruct (UCode_eqb _ _); lia.
      - apply Z.ltb_lt in Gc. lia. }
    destruct (IH _ Hrange' G) as [E Hr]. split; [|exact Hr].
    rewrite E, Hstep. cbn [acquired released].
    destruct c as [w|a]; lia.
Qed.


End LifecycleSequences.

(** ** Lifecycle calls that overlap *)

Section ThreadFacts.

Variable R : Atomic.repr.
Variable queueSize_ maxNumOfCuncurrentRequests_ : nat.

(** A call that no other thread comes across does, step by step, what
    [init] and [term] do as a whole: the same status, the same members,
    the same calls, and the mutex is free again. *)
Lemma alone_agrees c self :
  Threads.schedule R queueSize_ maxNumOfCuncurrentRequests_
    (repeat 0%nat 7) [Threads.thread [c]] (Threads.start self) =
  ([{| Threads.current := None; Threads.todo := [];
       Threads.statuses :=
         [status_of (step R queueSize_ maxNumOfCuncurrentRequests_ c self)] |}],
   {| Threads.members :=
        self_of (step R queueSize_ maxNumOfCuncurrentRequests_ c self);
      Threads.holder := None;
      Threads.calls_made :=
        trace_of (step R queueSize_ maxNumOfCuncurrentRequests_ c self) |}).
Proof.
  destruct self as [count session pool_].
  destruct c as [w|a]; cbn [step].
  - destruct w as [manager lookup made].
    destruct count as [|p|p]; [|reflexivity|reflexivity].
    destruct manager, lookup, made; reflexivity.
  - unfold term. cbn -[Atomic.fetch_sub].
    destruct (Atomic.fetch_sub R count 1 =? 0) eqn:E;
      cbn -[Atomic.fetch_sub]; rewrite ?E; destruct a; reflexivity.
Qed.

End ThreadFacts.

(** Worked examples for sequences of lifecycle calls. *)


